(** * ProfileManager (src/ProfileManager.ts): load / view / unload / save

    A shallow embedding of the [ProfileManager] class of vrldk and the
    properties of its caching, de-duplication and retry protocol.

    The class runs on Roblox's cooperative scheduler: a method body runs
    without interruption until it reaches a yielding call, and the only
    yielding calls in the class are [ProfileStore.LoadProfileAsync],
    [ProfileStore.ViewProfileAsync], [task.wait] and [Signal.wait].  The
    embedding therefore cuts every method at its yielding calls.  Each piece
    between two yields is an ordinary function in a small state monad over
    the [World]; a suspended call is a value of type [Task] that remembers
    where the method stopped and the locals it still needs.  The scheduler
    and the record store are the environment: they appear as the [Label]s
    of a deterministic step function.

    Luau numbers (retry delays, clock readings) are modelled as rationals
    [Q].  The one operation the class performs on a delay is doubling, which
    is exact on binary floating-point numbers short of overflow. *)

From Stdlib Require Import QArith Qround Qpower.
From stdpp Require Import gmap strings list fin_maps pretty.

(** ** Data *)

Abbreviation Key := string.

(** Field values of a profile payload ([T extends object]). *)
Inductive Value :=
  | VNum (z : Z)
  | VStr (s : string)
  | VBool (b : bool).

(** [Profile.Data]: a table from field names to values. *)
Abbreviation Payload := (gmap string Value).

(** A [Profile<T>] is a reference object.  [ProfileRef] is its identity: the
    index of the object in [profiles], the list of all profile objects the
    store has handed out so far. *)
Abbreviation ProfileRef := nat.

(** Identity of a [Signal<Profile<T>>] object. *)
Abbreviation SignalId := nat.

(** [type: "load" | "view"] of an awaiting operation. *)
Inductive OpType := OpLoad | OpView.

(** Diagnostics.  The source builds the text by concatenation; the embedding
    keeps the pieces that vary. *)
Inductive Message :=
  | CouldNotLoad (profileKey : Key) (retryTime : Q)
      (* "Could not load profile " + profileKey + ". Retrying in " + retryTime + "s" *)
  | LoadedIn (profileKey : Key) (seconds : Q)
      (* "Loaded profile " + profileKey + " in " + seconds + "s" *)
  | ViewedIn (profileKey : Key) (seconds : Q)
      (* "Viewed profile " + profileKey + " in " + seconds + "s" *)
  | Unloaded (profileKey : Key)
      (* "Unloaded profile " + profileKey *)
  | CouldNotUnload (profileKey : Key).
      (* "Could not unload profile " + profileKey *)

(** What the manager does to the outside, in the order it does it. *)
Inductive Event :=
  | LoadProfileAsync (profileKey : Key)   (* profileStore.LoadProfileAsync(profileKey) *)
  | ViewProfileAsync (profileKey : Key)   (* profileStore.ViewProfileAsync(profileKey) *)
  | Reconcile (profile : ProfileRef)      (* profile.Reconcile() *)
  | Release (profile : ProfileRef)        (* profile.Release() *)
  | Save (profile : ProfileRef)           (* profile.Save() *)
  | Fire (signal : SignalId) (profile : ProfileRef)   (* signal.fire(profile) *)
  | TaskWait (seconds : Q)                (* task.wait(seconds) *)
  | Warn (message : Message)              (* warn(message) *)
  | Print (message : Message).            (* print(message) *)

(** What a call gives back: [load] and [view] a profile or [undefined],
    [unload] and [save] a boolean. *)
Inductive Result :=
  | RProfile (profile : option ProfileRef)
  | RBool (success : bool).

(** A call of one of the methods: suspended at one of the yielding calls,
    with the locals that are live there, or returned. *)
Inductive Task :=
  | LoadAwaitStore (profileKey : Key) (retryTime : option Q) (t : Q)
      (* load, line 46: inside LoadProfileAsync *)
  | LoadSleep (profileKey : Key) (retryTime : Q)
      (* load, line 57: inside task.wait(retryTime) *)
  | ViewAwaitSignal (profileKey : Key) (signal : SignalId)
      (* view, line 93: inside inProgress.signal.wait() *)
  | ViewAwaitStore (profileKey : Key) (signal : SignalId) (t : Q)
      (* view, line 99: inside ViewProfileAsync *)
  | Returned (result : Result).

(** The fields of the manager, the profile objects, the clock, the calls in
    progress and the trace of events. *)
Record World := mkWorld {
  name : string;
  template : Payload;
  loadedProfiles : gmap string ProfileRef;
  viewedProfiles : gmap string ProfileRef;
  awaitingOperations : gmap string (OpType * SignalId);
  profiles : list Payload;
  signals : nat;
  clock : Q;
  tasks : list Task;
  trace : list Event
}.

(** ** A state monad over the world *)

Definition M (A : Type) : Type := World -> A * World.

Definition ret {A} (a : A) : M A := fun w => (a, w).

Definition bind {A B} (m : M A) (k : A -> M B) : M B :=
  fun w => let '(a, w') := m w in k a w'.

Notation "x <- m ;; k" := (bind m (fun x => k))
  (at level 100, m at next level, right associativity).
Notation "m ;; k" := (bind m (fun _ => k))
  (at level 100, right associativity).

Definition gets {A} (f : World -> A) : M A := fun w => (f w, w).

Definition modify (f : World -> World) : M unit := fun w => (tt, f w).

Definition when (b : bool) (m : M unit) : M unit := if b then m else ret tt.

(** Field updates. *)
Definition with_loadedProfiles (f : gmap string ProfileRef -> gmap string ProfileRef) (w : World) : World :=
  mkWorld (name w) (template w) (f (loadedProfiles w)) (viewedProfiles w)
          (awaitingOperations w) (profiles w) (signals w) (clock w) (tasks w) (trace w).

Definition with_viewedProfiles (f : gmap string ProfileRef -> gmap string ProfileRef) (w : World) : World :=
  mkWorld (name w) (template w) (loadedProfiles w) (f (viewedProfiles w))
          (awaitingOperations w) (profiles w) (signals w) (clock w) (tasks w) (trace w).

Definition with_awaitingOperations
    (f : gmap string (OpType * SignalId) -> gmap string (OpType * SignalId)) (w : World) : World :=
  mkWorld (name w) (template w) (loadedProfiles w) (viewedProfiles w)
          (f (awaitingOperations w)) (profiles w) (signals w) (clock w) (tasks w) (trace w).

Definition with_profiles (f : list Payload -> list Payload) (w : World) : World :=
  mkWorld (name w) (template w) (loadedProfiles w) (viewedProfiles w)
          (awaitingOperations w) (f (profiles w)) (signals w) (clock w) (tasks w) (trace w).

Definition with_signals (f : nat -> nat) (w : World) : World :=
  mkWorld (name w) (template w) (loadedProfiles w) (viewedProfiles w)
          (awaitingOperations w) (profiles w) (f (signals w)) (clock w) (tasks w) (trace w).

Definition with_clock (now : Q) (w : World) : World :=
  mkWorld (name w) (template w) (loadedProfiles w) (viewedProfiles w)
          (awaitingOperations w) (profiles w) (signals w) now (tasks w) (trace w).

Definition with_tasks (f : list Task -> list Task) (w : World) : World :=
  mkWorld (name w) (template w) (loadedProfiles w) (viewedProfiles w)
          (awaitingOperations w) (profiles w) (signals w) (clock w) (f (tasks w)) (trace w).

Definition with_trace (f : list Event -> list Event) (w : World) : World :=
  mkWorld (name w) (template w) (loadedProfiles w) (viewedProfiles w)
          (awaitingOperations w) (profiles w) (signals w) (clock w) (tasks w) (f (trace w)).

(** ** The primitives the class calls *)

(** [tick()] *)
Definition tick : M Q := gets clock.

Definition emit (e : Event) : M unit := modify (with_trace (fun tr => tr ++ [e])).

Definition warn (message : Message) : M unit := emit (Warn message).
Definition print (message : Message) : M unit := emit (Print message).

(** [a > b] on numbers. *)
Definition Qgtb (a b : Q) : bool := negb (Qle_bool a b).

(** [math.floor(delta * 100) / 100] *)
Definition floor2 (delta : Q) : Q := (Qfloor (delta * 100) # 100)%Q.

(** [LoadProfileAsync] and [ViewProfileAsync] answer a successful call with
    a new profile object that carries the stored payload.  (The store is
    ProfileService; the manager sees it only through its answers.) *)
Definition new_profile (data : Payload) : M ProfileRef :=
  profile <- gets (fun w => length (profiles w)) ;;
  modify (with_profiles (fun ps => ps ++ [data])) ;;
  ret profile.

(** [new Signal<Profile<T>>()] *)
Definition new_signal : M SignalId :=
  signal <- gets signals ;;
  modify (with_signals S) ;;
  ret signal.

(** Modelled from the spec: [Profile.Reconcile] is a method of the
    ProfileService library, which is not part of this repository.  The spec
    has it fill every field that the template has and the payload lacks, and
    never overwrite a field of the payload: a union that prefers the
    payload. *)
Definition reconcile (template data : Payload) : Payload := data ∪ template.

(** [profile.Reconcile()]: the profile object is updated in place. *)
Definition Reconcile_profile (profile : ProfileRef) : M unit :=
  emit (Reconcile profile) ;;
  tpl <- gets template ;;
  modify (with_profiles (alter (reconcile tpl) profile)).

(** Modelled from the spec: [Signal] comes from the lemon-signal package,
    which is not part of this repository.  It is the one-shot,
    many-subscriber channel of the spec: [signal.fire(profile)] resumes every
    call that is suspended in [signal.wait()] on that signal, with the fired
    value.  All that is left of [view] there is [return res] (line 94); what
    the resumed callers do next is theirs, and is taken to begin after the
    piece of [view] that fires has run to its end. *)
Definition resume_waiter (signal : SignalId) (profile : ProfileRef) (task : Task) : Task :=
  match task with
  | ViewAwaitSignal _ s =>
      if Nat.eqb s signal then Returned (RProfile (Some profile)) else task
  | _ => task
  end.

(** [signal.fire(profile)] *)
Definition fire (signal : SignalId) (profile : ProfileRef) : M unit :=
  emit (Fire signal profile) ;;
  modify (with_tasks (map (resume_waiter signal profile))).

(** ** The methods, cut at their yielding calls *)

(** Lines 48-53 of [load]: the delay to sleep after a failed attempt. *)
Definition next_retryTime (retryTime : option Q) : Q :=
  match retryTime with
  | None => 0.1
  | Some retryTime => retryTime * 2
  end%Q.

(** [load(profileKey, retryTime?)], lines 41-46: up to the store call. *)
Definition load (profileKey : Key) (retryTime : option Q) : M Task :=
  t <- tick ;;
  cached <- gets (fun w => loadedProfiles w !! profileKey) ;;
  match cached with
  | Some cached => ret (Returned (RProfile (Some cached)))
  | None =>
      emit (LoadProfileAsync profileKey) ;;
      ret (LoadAwaitStore profileKey retryTime t)
  end.

(** [load], lines 46-73: from the answer of [LoadProfileAsync] on.  The
    store answers [undefined] ([None]) or a profile with the stored data. *)
Definition load_resume (profileKey : Key) (retryTime : option Q) (t : Q)
    (answer : option Payload) : M Task :=
  match answer with
  | None =>
      let retryTime := next_retryTime retryTime in
      when (Qgtb retryTime 0.5) (warn (CouldNotLoad profileKey retryTime)) ;;
      emit (TaskWait retryTime) ;;
      ret (LoadSleep profileKey retryTime)
  | Some data =>
      profile <- new_profile data ;;
      modify (with_loadedProfiles <[profileKey := profile]>) ;;
      now <- tick ;;
      let delta := (now - t)%Q in
      let message := LoadedIn profileKey (floor2 delta) in
      Reconcile_profile profile ;;
      (if Qgtb delta 5 then warn message else print message) ;;
      ret (Returned (RProfile (Some profile)))
  end.

(** [load], line 58: after [task.wait(retryTime)] the method calls itself. *)
Definition load_retry (profileKey : Key) (retryTime : Q) : M Task :=
  load profileKey (Some retryTime).

(** [view(profileKey)], lines 82-99: up to [signal.wait()] or the store
    call. *)
Definition view (profileKey : Key) : M Task :=
  t <- tick ;;
  cached <- gets (fun w => loadedProfiles w !! profileKey) ;;
  match cached with
  | Some cached => ret (Returned (RProfile (Some cached)))
  | None =>
      viewCached <- gets (fun w => viewedProfiles w !! profileKey) ;;
      match viewCached with
      | Some viewCached => ret (Returned (RProfile (Some viewCached)))
      | None =>
          inProgress <- gets (fun w => awaitingOperations w !! profileKey) ;;
          match inProgress with
          | Some (_, signal) => ret (ViewAwaitSignal profileKey signal)
          | None =>
              signal <- new_signal ;;
              modify (with_awaitingOperations <[profileKey := (OpView, signal)]>) ;;
              emit (ViewProfileAsync profileKey) ;;
              ret (ViewAwaitStore profileKey signal t)
          end
      end
  end.

(** [view], lines 99-113: from the answer of [ViewProfileAsync] on. *)
Definition view_resume (profileKey : Key) (signal : SignalId) (t : Q)
    (answer : option Payload) : M Task :=
  profile <- match answer with
             | Some data => p <- new_profile data ;; ret (Some p)
             | None => ret None
             end ;;
  match profile with
  | Some profile =>
      fire signal profile ;;
      modify (with_awaitingOperations (delete profileKey)) ;;
      modify (with_viewedProfiles <[profileKey := profile]>)
  | None => ret tt
  end ;;
  now <- tick ;;
  let delta := (now - t)%Q in
  let message := ViewedIn profileKey (floor2 delta) in
  (if Qgtb delta 5 then warn message else print message) ;;
  ret (Returned (RProfile profile)).

(** [this.loadedProfiles.delete(profileKey)]: [Map.delete] removes the key
    and reports whether it was there. *)
Definition Map_delete (profileKey : Key) : M bool :=
  existed <- gets (fun w => match loadedProfiles w !! profileKey with
                            | Some _ => true
                            | None => false
                            end) ;;
  modify (with_loadedProfiles (delete profileKey)) ;;
  ret existed.

(** [unload(profileKey)], lines 122-135. *)
Definition unload (profileKey : Key) : M Task :=
  profile <- gets (fun w => loadedProfiles w !! profileKey) ;;
  match profile with
  | Some profile => emit (Release profile)
  | None => ret tt
  end ;;
  success <- Map_delete profileKey ;;
  (if success then print (Unloaded profileKey) else warn (CouldNotUnload profileKey)) ;;
  ret (Returned (RBool success)).

(** [save(profileKey)], lines 143-150. *)
Definition save (profileKey : Key) : M Task :=
  profile <- gets (fun w => loadedProfiles w !! profileKey) ;;
  match profile with
  | Some profile => emit (Save profile) ;; ret (Returned (RBool true))
  | None => ret (Returned (RBool false))
  end.

(** ** The scheduler and the store *)

Inductive Call :=
  | Load (profileKey : Key) (retryTime : option Q)
  | View (profileKey : Key)
  | Unload (profileKey : Key)
  | SaveProfile (profileKey : Key).

Definition enter (c : Call) : M Task :=
  match c with
  | Load profileKey retryTime => load profileKey retryTime
  | View profileKey => view profileKey
  | Unload profileKey => unload profileKey
  | SaveProfile profileKey => save profileKey
  end.

(** What the environment does.  [now] is the reading of the clock when the
    task runs.
    - [Invoke now c]: some task calls a method; the call gets the next index
      in [tasks] and runs to its first yield.
    - [StoreReply now tid answer]: the store call in which task [tid] is
      suspended returns [answer].
    - [Wake now tid]: the [task.wait] in which task [tid] is suspended
      ends. *)
Inductive Label :=
  | Invoke (now : Q) (c : Call)
  | StoreReply (now : Q) (tid : nat) (answer : option Payload)
  | Wake (now : Q) (tid : nat).

(** The code a label resumes, if the label is enabled. *)
Definition resumed (l : Label) (w : World) : option (M Task) :=
  match l with
  | Invoke _ c => Some (enter c)
  | StoreReply _ tid answer =>
      match tasks w !! tid with
      | Some (LoadAwaitStore profileKey retryTime t) =>
          Some (load_resume profileKey retryTime t answer)
      | Some (ViewAwaitStore profileKey signal t) =>
          Some (view_resume profileKey signal t answer)
      | _ => None
      end
  | Wake _ tid =>
      match tasks w !! tid with
      | Some (LoadSleep profileKey retryTime) => Some (load_retry profileKey retryTime)
      | _ => None
      end
  end.

Definition label_now (l : Label) : Q :=
  match l with
  | Invoke now _ | StoreReply now _ _ | Wake now _ => now
  end.

(** Store the new state of the running task: a new call is appended, a
    resumed one is updated in place. *)
Definition put_task (l : Label) (task : Task) (ts : list Task) : list Task :=
  match l with
  | Invoke _ _ => ts ++ [task]
  | StoreReply _ tid _ | Wake _ tid => <[tid := task]> ts
  end.

(** One uninterrupted run of a task, from where it is resumed to its next
    yield or to its return. *)
Definition step (l : Label) (w : World) : option World :=
  match resumed l w with
  | Some code =>
      let '(task, w') := code (with_clock (label_now l) w) in
      Some (with_tasks (put_task l task) w')
  | None => None
  end.

Fixpoint exec (ls : list Label) (w : World) : option World :=
  match ls with
  | [] => Some w
  | l :: ls =>
      match step l w with
      | Some w' => exec ls w'
      | None => None
      end
  end.

(** [new ProfileManager(name, template)] in a fresh process. *)
Definition init (name : string) (template : Payload) : World :=
  mkWorld name template ∅ ∅ ∅ [] 0 0 [] [].

(** The states the manager can be in. *)
Definition reachable (w : World) : Prop :=
  ∃ name template ls, exec ls (init name template) = Some w.

(** ** Reading a trace *)

Definition is_store_load (profileKey : Key) (e : Event) : bool :=
  match e with
  | LoadProfileAsync k => bool_decide (k = profileKey)
  | _ => false
  end.

Definition is_store_view (profileKey : Key) (e : Event) : bool :=
  match e with
  | ViewProfileAsync k => bool_decide (k = profileKey)
  | _ => false
  end.

Definition is_store_call (e : Event) : bool :=
  match e with
  | LoadProfileAsync _ | ViewProfileAsync _ => true
  | _ => false
  end.

Definition is_reconcile (e : Event) : bool :=
  match e with
  | Reconcile _ => true
  | _ => false
  end.

Definition is_release (e : Event) : bool :=
  match e with
  | Release _ => true
  | _ => false
  end.

Definition is_fire (e : Event) : bool :=
  match e with
  | Fire _ _ => true
  | _ => false
  end.

Definition count (f : Event -> bool) (tr : list Event) : nat :=
  length (List.filter f tr).

(** The delays slept, in order. *)
Definition waits (tr : list Event) : list Q :=
  omap (fun e => match e with TaskWait d => Some d | _ => None end) tr.

(** ** The steps, case by case

    [Step l w w'] lists the ways a step can go: one constructor for each
    path through a piece of a method, with the condition under which the
    path is taken and the world it leads to.  It is the same relation as
    [step] ([step_Step] and [Step_step] below) and is what the invariants
    are proved on. *)

Definition report (delta : Q) (message : Message) : Event :=
  if Qgtb delta 5 then Warn message else Print message.

Inductive Step : Label -> World -> World -> Prop :=
  (* load, lines 42-45 *)
  | Step_load_cached w now profileKey retryTime cached :
      loadedProfiles w !! profileKey = Some cached ->
      Step (Invoke now (Load profileKey retryTime)) w
        (with_tasks (fun ts => ts ++ [Returned (RProfile (Some cached))])
           (with_clock now w))
  (* load, line 46 *)
  | Step_load_store w now profileKey retryTime :
      loadedProfiles w !! profileKey = None ->
      Step (Invoke now (Load profileKey retryTime)) w
        (with_tasks (fun ts => ts ++ [LoadAwaitStore profileKey retryTime now])
           (with_trace (fun tr => tr ++ [LoadProfileAsync profileKey])
              (with_clock now w)))
  (* load, lines 47-57 *)
  | Step_load_failed w now profileKey tid retryTime t :
      tasks w !! tid = Some (LoadAwaitStore profileKey retryTime t) ->
      Step (StoreReply now tid None) w
        (with_tasks <[tid := LoadSleep profileKey (next_retryTime retryTime)]>
           (with_trace (fun tr => tr ++
                          (if Qgtb (next_retryTime retryTime) 0.5
                           then [Warn (CouldNotLoad profileKey (next_retryTime retryTime))]
                           else []) ++ [TaskWait (next_retryTime retryTime)])
              (with_clock now w)))
  (* load, lines 60-72 *)
  | Step_load_succeeded w now profileKey tid retryTime t data :
      tasks w !! tid = Some (LoadAwaitStore profileKey retryTime t) ->
      Step (StoreReply now tid (Some data)) w
        (with_tasks <[tid := Returned (RProfile (Some (length (profiles w))))]>
           (with_trace (fun tr => tr ++
                          [Reconcile (length (profiles w));
                           report (now - t) (LoadedIn profileKey (floor2 (now - t)))])
              (with_profiles (fun ps => alter (reconcile (template w)) (length (profiles w))
                                          (ps ++ [data]))
                 (with_loadedProfiles <[profileKey := length (profiles w)]>
                    (with_clock now w)))))
  (* load, line 58, then lines 42-45 *)
  | Step_load_wake_cached w now profileKey tid retryTime cached :
      tasks w !! tid = Some (LoadSleep profileKey retryTime) ->
      loadedProfiles w !! profileKey = Some cached ->
      Step (Wake now tid) w
        (with_tasks <[tid := Returned (RProfile (Some cached))]> (with_clock now w))
  (* load, line 58, then line 46 *)
  | Step_load_wake_store w now profileKey tid retryTime :
      tasks w !! tid = Some (LoadSleep profileKey retryTime) ->
      loadedProfiles w !! profileKey = None ->
      Step (Wake now tid) w
        (with_tasks <[tid := LoadAwaitStore profileKey (Some retryTime) now]>
           (with_trace (fun tr => tr ++ [LoadProfileAsync profileKey])
              (with_clock now w)))
  (* view, lines 83-86 *)
  | Step_view_loaded w now profileKey cached :
      loadedProfiles w !! profileKey = Some cached ->
      Step (Invoke now (View profileKey)) w
        (with_tasks (fun ts => ts ++ [Returned (RProfile (Some cached))])
           (with_clock now w))
  (* view, lines 87-90 *)
  | Step_view_viewed w now profileKey viewCached :
      loadedProfiles w !! profileKey = None ->
      viewedProfiles w !! profileKey = Some viewCached ->
      Step (Invoke now (View profileKey)) w
        (with_tasks (fun ts => ts ++ [Returned (RProfile (Some viewCached))])
           (with_clock now w))
  (* view, lines 91-93 *)
  | Step_view_pending w now profileKey ty signal :
      loadedProfiles w !! profileKey = None ->
      viewedProfiles w !! profileKey = None ->
      awaitingOperations w !! profileKey = Some (ty, signal) ->
      Step (Invoke now (View profileKey)) w
        (with_tasks (fun ts => ts ++ [ViewAwaitSignal profileKey signal])
           (with_clock now w))
  (* view, lines 96-99 *)
  | Step_view_store w now profileKey :
      loadedProfiles w !! profileKey = None ->
      viewedProfiles w !! profileKey = None ->
      awaitingOperations w !! profileKey = None ->
      Step (Invoke now (View profileKey)) w
        (with_tasks (fun ts => ts ++ [ViewAwaitStore profileKey (signals w) now])
           (with_trace (fun tr => tr ++ [ViewProfileAsync profileKey])
              (with_awaitingOperations <[profileKey := (OpView, signals w)]>
                 (with_signals S (with_clock now w)))))
  (* view, lines 100-113, profile !== undefined *)
  | Step_view_found w now profileKey tid signal t data :
      tasks w !! tid = Some (ViewAwaitStore profileKey signal t) ->
      Step (StoreReply now tid (Some data)) w
        (with_tasks (fun ts => <[tid := Returned (RProfile (Some (length (profiles w))))]>
                                 (map (resume_waiter signal (length (profiles w))) ts))
           (with_trace (fun tr => tr ++
                          [Fire signal (length (profiles w));
                           report (now - t) (ViewedIn profileKey (floor2 (now - t)))])
              (with_viewedProfiles <[profileKey := length (profiles w)]>
                 (with_awaitingOperations (delete profileKey)
                    (with_profiles (fun ps => ps ++ [data]) (with_clock now w))))))
  (* view, lines 105-113, profile === undefined *)
  | Step_view_not_found w now profileKey tid signal t :
      tasks w !! tid = Some (ViewAwaitStore profileKey signal t) ->
      Step (StoreReply now tid None) w
        (with_tasks <[tid := Returned (RProfile None)]>
           (with_trace (fun tr => tr ++
                          [report (now - t) (ViewedIn profileKey (floor2 (now - t)))])
              (with_clock now w)))
  (* unload, the key is loaded *)
  | Step_unload_loaded w now profileKey profile :
      loadedProfiles w !! profileKey = Some profile ->
      Step (Invoke now (Unload profileKey)) w
        (with_tasks (fun ts => ts ++ [Returned (RBool true)])
           (with_trace (fun tr => (tr ++ [Release profile]) ++ [Print (Unloaded profileKey)])
              (with_loadedProfiles (delete profileKey) (with_clock now w))))
  (* unload, the key is not loaded *)
  | Step_unload_absent w now profileKey :
      loadedProfiles w !! profileKey = None ->
      Step (Invoke now (Unload profileKey)) w
        (with_tasks (fun ts => ts ++ [Returned (RBool false)])
           (with_trace (fun tr => tr ++ [Warn (CouldNotUnload profileKey)])
              (with_loadedProfiles (delete profileKey) (with_clock now w))))
  (* save, the key is loaded *)
  | Step_save_loaded w now profileKey profile :
      loadedProfiles w !! profileKey = Some profile ->
      Step (Invoke now (SaveProfile profileKey)) w
        (with_tasks (fun ts => ts ++ [Returned (RBool true)])
           (with_trace (fun tr => tr ++ [Save profile]) (with_clock now w)))
  (* save, the key is not loaded *)
  | Step_save_absent w now profileKey :
      loadedProfiles w !! profileKey = None ->
      Step (Invoke now (SaveProfile profileKey)) w
        (with_tasks (fun ts => ts ++ [Returned (RBool false)]) (with_clock now w)).

(** ** What holds in every reachable state *)

(** The entries of a map under one key. *)
Definition entries_for {A} (profileKey : Key) (m : gmap string A) : list (string * A) :=
  List.filter (fun kv => bool_decide (kv.1 = profileKey)) (map_to_list m).

(** A call of [view(profileKey)] that is inside the store call. *)
Definition view_in_flight (profileKey : Key) (task : Task) : bool :=
  match task with
  | ViewAwaitStore k _ _ => bool_decide (k = profileKey)
  | _ => false
  end.

Record Inv (w : World) : Prop := {
  (* a view in the store call has its awaiting operation registered, and
     the key has no cached view yet *)
  inv_view_pending : forall tid k s t,
    tasks w !! tid = Some (ViewAwaitStore k s t) ->
    viewedProfiles w !! k = None ∧ awaitingOperations w !! k = Some (OpView, s);
  (* no two views of a key are in the store call *)
  inv_view_unique : forall tid1 tid2 k s1 t1 s2 t2,
    tasks w !! tid1 = Some (ViewAwaitStore k s1 t1) ->
    tasks w !! tid2 = Some (ViewAwaitStore k s2 t2) ->
    tid1 = tid2;
  (* a key whose view was asked of the store is awaited or cached *)
  inv_view_asked : forall k,
    viewedProfiles w !! k = None ->
    awaitingOperations w !! k = None ->
    count (is_store_view k) (trace w) = 0;
  (* the store is asked to view a key at most once *)
  inv_view_once : forall k, count (is_store_view k) (trace w) <= 1;
  (* a key with an awaiting operation has no cached view *)
  inv_pending_not_viewed : forall k op,
    awaitingOperations w !! k = Some op -> viewedProfiles w !! k = None;
  (* a view waiting on a signal waits on the signal of the awaiting
     operation of its key *)
  inv_waiter : forall tid k s,
    tasks w !! tid = Some (ViewAwaitSignal k s) ->
    ∃ ty, awaitingOperations w !! k = Some (ty, s);
  (* signals of awaiting operations are existing signals *)
  inv_signal_known : forall k ty s,
    awaitingOperations w !! k = Some (ty, s) -> s < signals w;
  (* and no two keys share one *)
  inv_signal_inj : forall k1 k2 ty1 ty2 s,
    awaitingOperations w !! k1 = Some (ty1, s) ->
    awaitingOperations w !! k2 = Some (ty2, s) ->
    k1 = k2
}.

(** The state of a key after its view was not found: the awaiting operation
    is still registered, though no call is inside the store call for it. *)
Definition abandoned (profileKey : Key) (signal : SignalId) (w : World) : Prop :=
  awaitingOperations w !! profileKey = Some (OpView, signal)
  ∧ viewedProfiles w !! profileKey = None
  ∧ forall tid s t, tasks w !! tid ≠ Some (ViewAwaitStore profileKey s t).

(** ** Sequential runs of [load] *)

(** The environment's part in a [load] whose store call fails [length times]
    times in a row: each failure is the store's answer [undefined], then the
    end of the sleep.  [times] gives the clock readings of the two. *)
Fixpoint failures (tid : nat) (times : list (Q * Q)) : list Label :=
  match times with
  | [] => []
  | (t_reply, t_wake) :: times =>
      StoreReply t_reply tid None :: Wake t_wake tid :: failures tid times
  end.

(** The delays that [load] computes over [n] consecutive failures, by
    lines 48-53, when it was entered with [retryTime]. *)
Fixpoint retry_delays (n : nat) (retryTime : option Q) : list Q :=
  match n with
  | 0 => []
  | S n =>
      let retryTime := next_retryTime retryTime in
      retryTime :: retry_delays n (Some retryTime)
  end.

(** What one failed attempt does, lines 54-58 and 46: the warning if the
    delay is above 0.5, the sleep, and the next store call. *)
Definition retry_events (profileKey : Key) (retryTime : Q) : list Event :=
  (if Qgtb retryTime 0.5 then [Warn (CouldNotLoad profileKey retryTime)] else [])
  ++ [TaskWait retryTime; LoadProfileAsync profileKey].

(** A call of [load(profileKey)] that is still trying. *)
Definition load_in_flight (profileKey : Key) (task : Task) : bool :=
  match task with
  | LoadAwaitStore k _ _ | LoadSleep k _ => bool_decide (k = profileKey)
  | _ => false
  end.

Definition is_unload (profileKey : Key) (l : Label) : bool :=
  match l with
  | Invoke _ (Unload k) => bool_decide (k = profileKey)
  | _ => false
  end.

(** A label that resumes task [tid]. *)
Definition own_label (tid : nat) (l : Label) : bool :=
  match l with
  | Invoke _ _ => false
  | StoreReply _ t _ | Wake _ t => Nat.eqb t tid
  end.

(** The attempts of a call are the store calls it made: one for each answer
    it got from the store. *)
Definition attempts (ls : list Label) : nat :=
  length (List.filter (fun l => match l with StoreReply _ _ _ => true | _ => false end) ls).

(** ** Scenarios of section 8 of the specification *)

Definition P1_template : Payload := {[ "coins" := VNum 0; "level" := VNum 1 ]}.
Definition P1_stored : Payload := {[ "coins" := VNum 50 ]}.
Definition P1_world : option World :=
  exec [Invoke 0 (Load "P1" None); StoreReply 1 0 (Some P1_stored)]
       (init "PlayerData" P1_template).

Definition P2_world : option World :=
  exec [Invoke 0 (Load "P2" None); StoreReply 1 0 None; Wake 2 0;
        StoreReply 3 0 None; Wake 4 0; StoreReply 5 0 (Some ∅)]
       (init "PlayerData" ∅).

(** [load("P2")] with one failure of the store. *)
Definition P2_once_failed : option World :=
  exec [Invoke 0 (Load "P2" None); StoreReply 1 0 None; Wake 2 0;
        StoreReply 3 0 (Some ∅)]
       (init "PlayerData" ∅).

(** "P2" is loaded after one failure, then viewed and saved. *)
Definition P2_loaded_viewed_saved : World :=
  default (init "PlayerData" ∅)
    (w ← P2_once_failed;
     exec [Invoke 4 (View "P2"); Invoke 5 (SaveProfile "P2")] w).

(** "P1" was viewed; then it is loaded, saved and unloaded. *)
Definition P1_viewed_then_released : list Label :=
  [Invoke 2 (Load "P1" None); StoreReply 3 1 (Some {[ "coins" := VNum 75 ]});
   Invoke 4 (SaveProfile "P1"); Invoke 5 (Unload "P1")].

(** Two calls of [view("P3")]: the first is in the store call, the second
    waits for the first. *)
Definition P3_two_views : World :=
  default (init "PlayerData" ∅)
    (exec [Invoke 0 (View "P3"); Invoke 1 (View "P3")] (init "PlayerData" ∅)).

Definition P1_loaded : World := default (init "PlayerData" P1_template) P1_world.

(** A manager that has viewed "P1" and then loaded it: both caches hold the
    key, with different profile objects. *)
Definition P1_viewed_loaded : World :=
  default (init "PlayerData" P1_template)
    (exec [Invoke 0 (View "P1"); StoreReply 1 0 (Some P1_stored);
           Invoke 2 (Load "P1" None); StoreReply 3 1 (Some P1_stored)]
          (init "PlayerData" P1_template)).

(** A manager that has viewed "P1" only. *)
Definition P1_viewed : World :=
  default (init "PlayerData" P1_template)
    (exec [Invoke 0 (View "P1"); StoreReply 1 0 (Some P1_stored)]
          (init "PlayerData" P1_template)).

(** ** Tactics *)

Ltac unfold_code :=
  unfold step, resumed, enter, load_retry, load, load_resume, view, view_resume,
    unload, save, Map_delete, Reconcile_profile, fire, new_profile, new_signal,
    warn, print, emit, when, tick, bind, ret, gets, modify.

Ltac simpl_world :=
  cbn [name template loadedProfiles viewedProfiles awaitingOperations profiles
       signals clock tasks trace with_loadedProfiles with_viewedProfiles
       with_awaitingOperations with_profiles with_signals with_clock with_tasks
       with_trace] in *.

(** Run the code of a step, using the hypotheses about the maps and tasks. *)
Ltac run_code :=
  unfold_code; cbn;
  repeat match goal with
         | H : _ !! _ = _ |- _ => rewrite H; cbn
         end.

(** Count the events of one kind among the events of one step. *)
Ltac count_step :=
  unfold count in *; rewrite ?List.filter_app, ?length_app;
  unfold report; repeat (destruct (Qgtb _ _)); cbn;
  rewrite ?bool_decide_eq_false_2 by congruence; cbn.

(** Use the invariant of the old state at everything known about it. *)
Ltac use_inv Ipend Iasked Ionce Iwait Iknown :=
  repeat match goal with
         | H : tasks _ !! _ = Some (ViewAwaitStore _ _ _) |- _ =>
             let Hv := fresh "Hv" in let Ha := fresh "Ha" in
             pose proof (Ipend _ _ _ _ H) as [Hv Ha]; revert H
         | H : tasks _ !! _ = Some (ViewAwaitSignal _ _) |- _ =>
             let Ha := fresh "Ha" in
             pose proof (Iwait _ _ _ H) as [? Ha]; revert H
         end; intros;
  repeat match goal with
         | H : awaitingOperations _ !! _ = Some (_, _) |- _ =>
             pose proof (Iknown _ _ _ H); revert H
         end; intros;
  try match goal with
      | Hv : viewedProfiles ?w !! ?k = None, Ha : awaitingOperations ?w !! ?k = None |- _ =>
          pose proof (Iasked k Hv Ha)
      end;
  try match goal with
      | |- context [count (is_store_view ?k) _] => pose proof (Ionce k)
      end.

(** ** More about the class: readings used by the further properties *)

Definition is_save (e : Event) : bool :=
  match e with
  | Save _ => true
  | _ => false
  end.

(** The key a suspended call works on. *)
Definition task_key (task : Task) : option Key :=
  match task with
  | LoadAwaitStore k _ _ | LoadSleep k _ | ViewAwaitSignal k _ | ViewAwaitStore k _ _ => Some k
  | Returned _ => None
  end.

(** The key of the call that a label starts or resumes. *)
Definition step_key (l : Label) (w : World) : option Key :=
  match l with
  | Invoke _ (Load k _ | View k | Unload k | SaveProfile k) => Some k
  | StoreReply _ tid _ | Wake _ tid => tasks w !! tid ≫= task_key
  end.

(** The index in [tasks] of the call that a label starts or resumes. *)
Definition step_task (l : Label) (w : World) : nat :=
  match l with
  | Invoke _ _ => length (tasks w)
  | StoreReply _ tid _ | Wake _ tid => tid
  end.

(** The methods of the class. *)
Inductive Method := MLoad | MView | MUnload | MSave.

(** The method whose code a label runs. *)
Definition step_method (l : Label) (w : World) : option Method :=
  match l with
  | Invoke _ (Load _ _) => Some MLoad
  | Invoke _ (View _) => Some MView
  | Invoke _ (Unload _) => Some MUnload
  | Invoke _ (SaveProfile _) => Some MSave
  | StoreReply _ tid _ | Wake _ tid =>
      match tasks w !! tid with
      | Some (LoadAwaitStore _ _ _ | LoadSleep _ _) => Some MLoad
      | Some (ViewAwaitSignal _ _ | ViewAwaitStore _ _ _) => Some MView
      | _ => None
      end
  end.

(** The clock reading at which the last attempt of a [load] began: the end
    of the last sleep, or the time of the call if there was no failure. *)
Fixpoint last_attempt (t : Q) (times : list (Q * Q)) : Q :=
  match times with
  | [] => t
  | (_, t_wake) :: times => last_attempt t_wake times
  end.

(** The sum of a list of delays. *)
Definition Qsum (ds : list Q) : Q := fold_right Qplus 0%Q ds.

(** Two calls of [view("P3")] and two of [view("P4")], none answered yet. *)
Definition P3_P4_views : World :=
  default (init "PlayerData" ∅)
    (exec [Invoke 0 (View "P3"); Invoke 1 (View "P3");
           Invoke 2 (View "P4"); Invoke 3 (View "P4")]
          (init "PlayerData" ∅)).

Definition is_release_of (profile : ProfileRef) (e : Event) : bool :=
  match e with
  | Release p => Nat.eqb p profile
  | _ => false
  end.

(** What the manager holds, and what it has done with it: every profile in
    a map exists; no two keys are loaded with one profile object, and no
    object is both loaded and viewed; a profile that is loaded has not been
    released; a viewed profile has been neither released nor saved; no
    profile was released twice; every awaiting operation is a view. *)
Record Owned (w : World) : Prop := {
  own_loaded_known : forall k p,
    loadedProfiles w !! k = Some p -> p < length (profiles w);
  own_viewed_known : forall k p,
    viewedProfiles w !! k = Some p -> p < length (profiles w);
  own_events_known : forall p,
    In (Release p) (trace w) ∨ In (Save p) (trace w) -> p < length (profiles w);
  own_loaded_inj : forall k1 k2 p,
    loadedProfiles w !! k1 = Some p -> loadedProfiles w !! k2 = Some p -> k1 = k2;
  own_apart : forall k1 k2 p,
    loadedProfiles w !! k1 = Some p -> viewedProfiles w !! k2 = Some p -> False;
  own_not_released : forall k p,
    loadedProfiles w !! k = Some p -> ¬ In (Release p) (trace w);
  own_viewed_untouched : forall k p,
    viewedProfiles w !! k = Some p ->
    ¬ In (Release p) (trace w) ∧ ¬ In (Save p) (trace w);
  own_release_once : forall p, count (is_release_of p) (trace w) <= 1;
  own_view_only : forall k ty s,
    awaitingOperations w !! k = Some (ty, s) -> ty = OpView
}.


(** * [src/src/StringUtils.ts]: [combineHumanReadable]

    The loop of [combineHumanReadable] keeps three variables: the text built
    so far, the counter [i] of the strings written, and [size], which starts
    as the number of arguments and loses one for every empty string met.
    Luau numbers that only count are integers here. *)

Module StringUtils.

Record Loop := {
  label : string;
  i : Z;
  size : Z;
}.

(** The body of [for (const c of strings)]: an empty string lowers [size]
    and is skipped ([continue]); another one is appended, followed by the
    separator while [i < size]. *)
Definition body (st : Loop) (c : string) : Loop :=
  if String.eqb c EmptyString then
    {| label := label st; i := i st; size := size st - 1 |}
  else
    let label1 := label st +:+ c in
    let label2 := if (i st <? size st)%Z then label1 +:+ ", " else label1 in
    {| label := label2; i := i st + 1; size := size st |}.

Definition combineHumanReadable (strings : list string) : string :=
  label (fold_left body strings
           {| label := EmptyString; i := 1;
              size := Z.of_nat (length strings) |}).

(** What the loop writes for the strings still to come: each string that is
    not empty, with the separator after it unless it stands at the last
    position. *)
Fixpoint written (strings : list string) : string :=
  match strings with
  | [] => EmptyString
  | c :: rest =>
      (if String.eqb c EmptyString then EmptyString
       else if bool_decide (rest = []) then c else c +:+ ", ")
      +:+ written rest
  end.

Definition non_empty (c : string) : bool := negb (String.eqb c EmptyString).

(** The last argument is an empty string, and some argument is not. *)
Definition dangling (strings : list string) : bool :=
  match last strings, List.filter non_empty strings with
  | Some c, _ :: _ => String.eqb c EmptyString
  | _, _ => false
  end.

End StringUtils.

(** * [src/unnamed/part_000]: information attached to instances

    [INFO_PER_INSTANCE] maps an instance to its information table.  The
    first time an instance is met, an empty table is stored for it and a
    callback that deletes the entry is connected once to the instance's
    [Destroying] signal.  An instance is its identity; the table of an
    instance lives in the map, and the table a function returns is read
    from there.  [connections] lists, in order of connection, the instance
    of each callback that is connected and has not run. *)

Module InstanceInfo.

Abbreviation Instance := nat.

(** [InstanceInfo]: a Luau table from field names to values. *)
Abbreviation Info := (gmap string Value).

Record Registry := {
  INFO_PER_INSTANCE : gmap Instance Info;
  connections : list Instance;
}.

Definition initial : Registry :=
  {| INFO_PER_INSTANCE := ∅; connections := [] |}.

(** [info[key] = value]: assigning [undefined] removes the field. *)
Definition assign (key : string) (value : option Value) (info : Info) : Info :=
  match value with
  | Some v => <[key := v]> info
  | None => delete key info
  end.

Definition setInstanceInfo (instance : Instance) (key : string)
    (value : option Value) (r : Registry) : Info * Registry :=
  match INFO_PER_INSTANCE r !! instance with
  | Some info =>
      let info := assign key value info in
      (info,
       {| INFO_PER_INSTANCE := <[instance := info]> (INFO_PER_INSTANCE r);
          connections := connections r |})
  | None =>
      let info := assign key value ∅ in
      (info,
       {| INFO_PER_INSTANCE := <[instance := info]> (INFO_PER_INSTANCE r);
          connections := connections r ++ [instance] |})
  end.

Definition getAllInstanceInfo (instance : Instance) (r : Registry)
    : Info * Registry :=
  match INFO_PER_INSTANCE r !! instance with
  | Some info => (info, r)
  | None =>
      (∅,
       {| INFO_PER_INSTANCE := <[instance := ∅]> (INFO_PER_INSTANCE r);
          connections := connections r ++ [instance] |})
  end.

Definition getInstanceInfo (instance : Instance) (key : string)
    (r : Registry) : option Value :=
  match INFO_PER_INSTANCE r !! instance with
  | None => None
  | Some info => info !! key
  end.

(** The engine fires [instance.Destroying]: every callback connected to it
    runs, deleting the entry of its instance, and is disconnected, as
    [Once] has it. *)
Definition Destroying (instance : Instance) (r : Registry) : Registry :=
  {| INFO_PER_INSTANCE :=
       if bool_decide (instance ∈ connections r)
       then delete instance (INFO_PER_INSTANCE r)
       else INFO_PER_INSTANCE r;
     connections := List.filter (fun x => negb (Nat.eqb x instance))
                                (connections r) |}.

(** What can happen to the registry. *)
Inductive Op :=
  | Set_ (instance : Instance) (key : string) (value : option Value)
  | GetAll (instance : Instance)
  | Get (instance : Instance) (key : string)
  | Destroy (instance : Instance).

Definition run (r : Registry) (op : Op) : Registry :=
  match op with
  | Set_ instance key value => (setInstanceInfo instance key value r).2
  | GetAll instance => (getAllInstanceInfo instance r).2
  | Get _ _ => r
  | Destroy instance => Destroying instance r
  end.

Definition reachable (r : Registry) : Prop :=
  exists ops, r = fold_left run ops initial.

(** The number of callbacks connected to [instance.Destroying]. *)
Definition connected (instance : Instance) (r : Registry) : nat :=
  length (List.filter (Nat.eqb instance) (connections r)).

End InstanceInfo.

(** * [src/unnamed/part_001]: seconds as clock text

    The two functions are read for whole numbers of seconds, as integers.
    Luau's [%] with a positive divisor is the remainder of the floored
    division, and the divisions written with [/] are exact here, both
    dividends being multiples of sixty. *)

Module Clock.





End Clock.

(** * [src/src/InstanceUtils.ts]: [findModels]

    An instance is read as the tree below it: its name, its class and its
    children in the order of [GetChildren]; two instances that look alike
    are not told apart.  [IsA] is the engine's class test, given by the
    class hierarchy [inherits]. *)

Module InstanceUtils.

#[warnings="-register-all"]
Inductive Instance :=
  | Inst (Name : string) (ClassName : string) (children : list Instance).

Definition ClassName (instance : Instance) : string :=
  match instance with Inst _ className _ => className end.

Definition GetChildren (instance : Instance) : list Instance :=
  match instance with Inst _ _ children => children end.

Section Classes.

(** [inherits className ancestor]: the class is [ancestor] or derives from
    it. *)
Variable inherits : string -> string -> bool.

Definition IsA (instance : Instance) (className : string) : bool :=
  inherits (ClassName instance) className.

Fixpoint findModels (instance : Instance) : list Instance :=
  match instance with
  | Inst _ _ children =>
      fold_left
        (fun models child =>
           if IsA child "Folder" then models ++ findModels child
           else if IsA child "Model" then models ++ [child]
           else models)
        children []
  end.

(** [found_under instance model]: [model] is a child that is a model and
    not a folder, of the instance or of a folder reached from it through
    folders only. *)
Inductive found_under : Instance -> Instance -> Prop :=
  | found_child instance child :
      child ∈ GetChildren instance ->
      IsA child "Folder" = false ->
      IsA child "Model" = true ->
      found_under instance child
  | found_in_folder instance folder model :
      folder ∈ GetChildren instance ->
      IsA folder "Folder" = true ->
      found_under folder model ->
      found_under instance model.

End Classes.

End InstanceUtils.
(** ** The scenarios run *)

Example P1_scenario :
  (w ← P1_world;
   p ← loadedProfiles w !! "P1";
   d ← profiles w !! p;
   Some (tasks w !! 0, map_to_list d)) =
  Some (Some (Returned (RProfile (Some 0))),
        map_to_list ({[ "coins" := VNum 50; "level" := VNum 1 ]} : Payload)).
Proof. vm_compute. reflexivity. Qed.

Example P2_scenario :
  trace <$> P2_world =
  Some [LoadProfileAsync "P2"; TaskWait 0.1; LoadProfileAsync "P2";
        TaskWait (2 # 10); LoadProfileAsync "P2";
        Reconcile 0; Print (LoadedIn "P2" (100 # 100))].
Proof. vm_compute. reflexivity. Qed.

(** ** Single steps *)

Section Steps.
Context (w : World) (now : Q) (profileKey : Key).

Lemma step_load_cached retryTime cached :
  loadedProfiles w !! profileKey = Some cached ->
  step (Invoke now (Load profileKey retryTime)) w =
    Some (with_tasks (fun ts => ts ++ [Returned (RProfile (Some cached))])
            (with_clock now w)).
Proof. intros H. run_code. reflexivity. Qed.

Lemma step_load_store retryTime :
  loadedProfiles w !! profileKey = None ->
  step (Invoke now (Load profileKey retryTime)) w =
    Some (with_tasks (fun ts => ts ++ [LoadAwaitStore profileKey retryTime now])
            (with_trace (fun tr => tr ++ [LoadProfileAsync profileKey])
               (with_clock now w))).
Proof. intros H. run_code. reflexivity. Qed.

Lemma step_view_loaded cached :
  loadedProfiles w !! profileKey = Some cached ->
  step (Invoke now (View profileKey)) w =
    Some (with_tasks (fun ts => ts ++ [Returned (RProfile (Some cached))])
            (with_clock now w)).
Proof. intros H. run_code. reflexivity. Qed.

Lemma step_view_viewed viewCached :
  loadedProfiles w !! profileKey = None ->
  viewedProfiles w !! profileKey = Some viewCached ->
  step (Invoke now (View profileKey)) w =
    Some (with_tasks (fun ts => ts ++ [Returned (RProfile (Some viewCached))])
            (with_clock now w)).
Proof. intros H1 H2. run_code. reflexivity. Qed.

Lemma step_view_pending ty signal :
  loadedProfiles w !! profileKey = None ->
  viewedProfiles w !! profileKey = None ->
  awaitingOperations w !! profileKey = Some (ty, signal) ->
  step (Invoke now (View profileKey)) w =
    Some (with_tasks (fun ts => ts ++ [ViewAwaitSignal profileKey signal])
            (with_clock now w)).
Proof. intros H1 H2 H3. run_code. reflexivity. Qed.

Lemma step_view_store :
  loadedProfiles w !! profileKey = None ->
  viewedProfiles w !! profileKey = None ->
  awaitingOperations w !! profileKey = None ->
  step (Invoke now (View profileKey)) w =
    Some (with_tasks (fun ts => ts ++ [ViewAwaitStore profileKey (signals w) now])
            (with_trace (fun tr => tr ++ [ViewProfileAsync profileKey])
               (with_awaitingOperations <[profileKey := (OpView, signals w)]>
                  (with_signals S (with_clock now w))))).
Proof. intros H1 H2 H3. run_code. reflexivity. Qed.

Lemma step_unload_loaded profile :
  loadedProfiles w !! profileKey = Some profile ->
  step (Invoke now (Unload profileKey)) w =
    Some (with_tasks (fun ts => ts ++ [Returned (RBool true)])
            (with_trace (fun tr => (tr ++ [Release profile]) ++ [Print (Unloaded profileKey)])
               (with_loadedProfiles (delete profileKey) (with_clock now w)))).
Proof. intros H. run_code. reflexivity. Qed.

Lemma step_unload_absent :
  loadedProfiles w !! profileKey = None ->
  step (Invoke now (Unload profileKey)) w =
    Some (with_tasks (fun ts => ts ++ [Returned (RBool false)])
            (with_trace (fun tr => tr ++ [Warn (CouldNotUnload profileKey)])
               (with_loadedProfiles (delete profileKey) (with_clock now w)))).
Proof. intros H. run_code. reflexivity. Qed.

Lemma step_load_failed tid retryTime t :
  tasks w !! tid = Some (LoadAwaitStore profileKey retryTime t) ->
  step (StoreReply now tid None) w =
    let retryTime := next_retryTime retryTime in
    Some (with_tasks <[tid := LoadSleep profileKey retryTime]>
            (with_trace (fun tr => tr ++ (if Qgtb retryTime 0.5
                                          then [Warn (CouldNotLoad profileKey retryTime)]
                                          else []) ++ [TaskWait retryTime])
               (with_clock now w))).
Proof.
  intros H. run_code.
  destruct (Qgtb (next_retryTime retryTime) 0.5); cbn; unfold with_tasks, with_trace; cbn.
  - rewrite <- app_assoc. reflexivity.
  - reflexivity.
Qed.

Lemma step_load_wake tid retryTime :
  tasks w !! tid = Some (LoadSleep profileKey retryTime) ->
  loadedProfiles w !! profileKey = None ->
  step (Wake now tid) w =
    Some (with_tasks <[tid := LoadAwaitStore profileKey (Some retryTime) now]>
            (with_trace (fun tr => tr ++ [LoadProfileAsync profileKey])
               (with_clock now w))).
Proof. intros H1 H2. run_code. reflexivity. Qed.

Lemma step_load_succeeded tid retryTime t data :
  tasks w !! tid = Some (LoadAwaitStore profileKey retryTime t) ->
  step (StoreReply now tid (Some data)) w =
    let profile := length (profiles w) in
    let delta := (now - t)%Q in
    let message := LoadedIn profileKey (floor2 delta) in
    Some (with_tasks <[tid := Returned (RProfile (Some profile))]>
            (with_trace (fun tr => tr ++ [Reconcile profile; report delta message])
               (with_profiles (fun ps => alter (reconcile (template w)) profile (ps ++ [data]))
                  (with_loadedProfiles <[profileKey := profile]> (with_clock now w))))).
Proof.
  intros H. run_code. unfold report.
  destruct (Qgtb (now - t) 5); cbn; unfold with_tasks, with_trace; cbn;
    rewrite <- app_assoc; reflexivity.
Qed.

Lemma step_load_wake_cached tid retryTime cached :
  tasks w !! tid = Some (LoadSleep profileKey retryTime) ->
  loadedProfiles w !! profileKey = Some cached ->
  step (Wake now tid) w =
    Some (with_tasks <[tid := Returned (RProfile (Some cached))]> (with_clock now w)).
Proof. intros H1 H2. run_code. reflexivity. Qed.

Lemma step_view_found tid signal t data :
  tasks w !! tid = Some (ViewAwaitStore profileKey signal t) ->
  step (StoreReply now tid (Some data)) w =
    let profile := length (profiles w) in
    let delta := (now - t)%Q in
    let message := ViewedIn profileKey (floor2 delta) in
    Some (with_tasks (fun ts => <[tid := Returned (RProfile (Some profile))]>
                                  (map (resume_waiter signal profile) ts))
            (with_trace (fun tr => tr ++ [Fire signal profile; report delta message])
               (with_viewedProfiles <[profileKey := profile]>
                  (with_awaitingOperations (delete profileKey)
                     (with_profiles (fun ps => ps ++ [data]) (with_clock now w)))))).
Proof.
  intros H. run_code. unfold report.
  destruct (Qgtb (now - t) 5); cbn; unfold with_tasks, with_trace; cbn;
    rewrite <- app_assoc; reflexivity.
Qed.

Lemma step_view_not_found tid signal t :
  tasks w !! tid = Some (ViewAwaitStore profileKey signal t) ->
  step (StoreReply now tid None) w =
    let delta := (now - t)%Q in
    let message := ViewedIn profileKey (floor2 delta) in
    Some (with_tasks <[tid := Returned (RProfile None)]>
            (with_trace (fun tr => tr ++ [report delta message]) (with_clock now w))).
Proof.
  intros H. run_code. unfold report.
  destruct (Qgtb (now - t) 5); reflexivity.
Qed.

Lemma step_save_loaded profile :
  loadedProfiles w !! profileKey = Some profile ->
  step (Invoke now (SaveProfile profileKey)) w =
    Some (with_tasks (fun ts => ts ++ [Returned (RBool true)])
            (with_trace (fun tr => tr ++ [Save profile]) (with_clock now w))).
Proof. intros H. run_code. reflexivity. Qed.

Lemma step_save_absent :
  loadedProfiles w !! profileKey = None ->
  step (Invoke now (SaveProfile profileKey)) w =
    Some (with_tasks (fun ts => ts ++ [Returned (RBool false)]) (with_clock now w)).
Proof. intros H. run_code. reflexivity. Qed.

End Steps.

(** [Step] and [step] are the same relation. *)
Lemma Step_step (l : Label) (w w' : World) : Step l w w' -> step l w = Some w'.
Proof.
  destruct 1.
  - apply step_load_cached; assumption.
  - apply step_load_store; assumption.
  - erewrite step_load_failed by eassumption. reflexivity.
  - erewrite step_load_succeeded by eassumption. reflexivity.
  - eapply step_load_wake_cached; eassumption.
  - eapply step_load_wake; eassumption.
  - apply step_view_loaded; assumption.
  - apply step_view_viewed; assumption.
  - eapply step_view_pending; eassumption.
  - apply step_view_store; assumption.
  - erewrite step_view_found by eassumption. reflexivity.
  - erewrite step_view_not_found by eassumption. reflexivity.
  - apply step_unload_loaded; assumption.
  - apply step_unload_absent; assumption.
  - apply step_save_loaded; assumption.
  - apply step_save_absent; assumption.
Qed.

Lemma step_Step (l : Label) (w w' : World) : step l w = Some w' -> Step l w w'.
Proof.
  intros H.
  destruct l as [now [k rt|k|k|k] | now tid answer | now tid].
  - destruct (loadedProfiles w !! k) as [cached|] eqn:Hl.
    + rewrite (step_load_cached _ _ _ _ _ Hl) in H. injection H as <-.
      constructor; assumption.
    + rewrite (step_load_store _ _ _ _ Hl) in H. injection H as <-.
      constructor; assumption.
  - destruct (loadedProfiles w !! k) as [cached|] eqn:Hl.
    { rewrite (step_view_loaded _ _ _ _ Hl) in H. injection H as <-.
      constructor; assumption. }
    destruct (viewedProfiles w !! k) as [viewCached|] eqn:Hv.
    { rewrite (step_view_viewed _ _ _ _ Hl Hv) in H. injection H as <-.
      constructor; assumption. }
    destruct (awaitingOperations w !! k) as [[ty signal]|] eqn:Ha.
    { rewrite (step_view_pending _ _ _ _ _ Hl Hv Ha) in H. injection H as <-.
      econstructor; eassumption. }
    rewrite (step_view_store _ _ _ Hl Hv Ha) in H. injection H as <-.
    constructor; assumption.
  - destruct (loadedProfiles w !! k) as [profile|] eqn:Hl.
    + rewrite (step_unload_loaded _ _ _ _ Hl) in H. injection H as <-.
      constructor; assumption.
    + rewrite (step_unload_absent _ _ _ Hl) in H. injection H as <-.
      constructor; assumption.
  - destruct (loadedProfiles w !! k) as [profile|] eqn:Hl.
    + rewrite (step_save_loaded _ _ _ _ Hl) in H. injection H as <-.
      constructor; assumption.
    + rewrite (step_save_absent _ _ _ Hl) in H. injection H as <-.
      constructor; assumption.
  - destruct (tasks w !! tid) as [[k rt t|k rt|k s|k s t|r]|] eqn:Ht;
      try (unfold step, resumed in H; rewrite Ht in H; discriminate H).
    + destruct answer as [data|].
      * rewrite (step_load_succeeded _ _ _ _ _ _ _ Ht) in H. injection H as <-.
        econstructor; eassumption.
      * rewrite (step_load_failed _ _ _ _ _ _ Ht) in H. injection H as <-.
        econstructor; eassumption.
    + destruct answer as [data|].
      * rewrite (step_view_found _ _ _ _ _ _ _ Ht) in H. injection H as <-.
        econstructor; eassumption.
      * rewrite (step_view_not_found _ _ _ _ _ _ Ht) in H. injection H as <-.
        econstructor; eassumption.
  - destruct (tasks w !! tid) as [[k rt t|k rt|k s|k s t|r]|] eqn:Ht;
      try (unfold step, resumed in H; rewrite Ht in H; discriminate H).
    destruct (loadedProfiles w !! k) as [cached|] eqn:Hl.
    + rewrite (step_load_wake_cached _ _ _ _ _ _ Ht Hl) in H. injection H as <-.
      econstructor; eassumption.
    + rewrite (step_load_wake _ _ _ _ _ Ht Hl) in H. injection H as <-.
      econstructor; eassumption.
Qed.

(** ** Cache hits and misses (C5, C6, C8) *)

(** C5. If [profileKey] is in [loadedProfiles], [view(profileKey)] returns
    exactly the loaded profile object and contacts the store not at all:
    the trace and the three maps are unchanged, whatever [viewedProfiles]
    and [awaitingOperations] hold for the key. *)
Theorem view_returns_loaded_record (w : World) (now : Q) (profileKey : Key)
    (cached : ProfileRef) :
  loadedProfiles w !! profileKey = Some cached ->
  ∃ w', step (Invoke now (View profileKey)) w = Some w'
      ∧ tasks w' = tasks w ++ [Returned (RProfile (Some cached))]
      ∧ trace w' = trace w
      ∧ count is_store_call (trace w') = count is_store_call (trace w)
      ∧ loadedProfiles w' = loadedProfiles w
      ∧ viewedProfiles w' = viewedProfiles w
      ∧ awaitingOperations w' = awaitingOperations w.
Proof.
  intros H. rewrite (step_view_loaded _ _ _ _ H).
  eexists. split; [reflexivity|]. cbn. auto 10.
Qed.

(** "P1" is both viewed (object 0) and loaded (object 1): [view] returns
    object 1. *)
Lemma view_returns_loaded_record_witness :
  loadedProfiles P1_viewed_loaded !! "P1" = Some 1 ∧
  viewedProfiles P1_viewed_loaded !! "P1" = Some 0 ∧
  ∃ w', step (Invoke 4 (View "P1")) P1_viewed_loaded = Some w'
      ∧ tasks w' = tasks P1_viewed_loaded ++ [Returned (RProfile (Some 1))]
      ∧ trace w' = trace P1_viewed_loaded
      ∧ count is_store_call (trace w') = count is_store_call (trace P1_viewed_loaded)
      ∧ loadedProfiles w' = loadedProfiles P1_viewed_loaded
      ∧ viewedProfiles w' = viewedProfiles P1_viewed_loaded
      ∧ awaitingOperations w' = awaitingOperations P1_viewed_loaded.
Proof.
  split; [vm_compute; reflexivity|].
  split; [vm_compute; reflexivity|].
  apply (view_returns_loaded_record P1_viewed_loaded 4 "P1" 1).
  vm_compute; reflexivity.
Defined.

(** C6. A key that is not in [loadedProfiles] makes [load] call the store's
    [LoadProfileAsync], whatever [viewedProfiles] holds for it; and for a
    key that is in [loadedProfiles], [unload] removes it, after which the
    next [load] calls the store again. *)
Theorem load_contacts_store_unless_loaded (w : World) (now now' : Q)
    (profileKey : Key) (retryTime : option Q) :
  match loadedProfiles w !! profileKey with
  | None =>
      ∃ w', step (Invoke now (Load profileKey retryTime)) w = Some w'
          ∧ trace w' = trace w ++ [LoadProfileAsync profileKey]
          ∧ tasks w' = tasks w ++ [LoadAwaitStore profileKey retryTime now]
          ∧ viewedProfiles w' = viewedProfiles w
  | Some _ =>
      ∃ w1 w2, step (Invoke now (Unload profileKey)) w = Some w1
          ∧ loadedProfiles w1 !! profileKey = None
          ∧ step (Invoke now' (Load profileKey retryTime)) w1 = Some w2
          ∧ trace w2 = trace w1 ++ [LoadProfileAsync profileKey]
          ∧ tasks w2 = tasks w1 ++ [LoadAwaitStore profileKey retryTime now']
  end.
Proof.
  destruct (loadedProfiles w !! profileKey) as [profile|] eqn:H.
  - rewrite (step_unload_loaded _ _ _ _ H).
    eexists. eexists. split; [reflexivity|].
    assert (Hgone : loadedProfiles
              (with_tasks (fun ts => ts ++ [Returned (RBool true)])
                 (with_trace (fun tr => (tr ++ [Release profile]) ++ [Print (Unloaded profileKey)])
                    (with_loadedProfiles (delete profileKey) (with_clock now w))))
              !! profileKey = None) by apply lookup_delete_eq.
    split; [exact Hgone|].
    rewrite (step_load_store _ _ _ _ Hgone).
    split; [reflexivity|]. cbn. auto.
  - rewrite (step_load_store _ _ _ _ H).
    eexists. split; [reflexivity|]. cbn. auto.
Qed.

(** A viewed key is loaded from the store all the same. *)
Lemma load_contacts_store_unless_loaded_witness :
  viewedProfiles P1_viewed !! "P1" = Some 0 ∧
  loadedProfiles P1_viewed !! "P1" = None ∧
  ∃ w', step (Invoke 2 (Load "P1" None)) P1_viewed = Some w'
      ∧ trace w' = trace P1_viewed ++ [LoadProfileAsync "P1"].
Proof.
  split; [vm_compute; reflexivity|].
  split; [vm_compute; reflexivity|].
  pose proof (load_contacts_store_unless_loaded P1_viewed 2 2 "P1" None) as H.
  change (loadedProfiles P1_viewed !! "P1") with (@None ProfileRef) in H.
  destruct H as (w' & ? & ? & _). eauto.
Defined.

(** C8. [unload(profileKey)] on a loaded key releases the profile, removes
    the key from [loadedProfiles] and returns [true]; on any other key it
    returns [false] and releases nothing.  Neither case touches
    [viewedProfiles] or [awaitingOperations]. *)
Theorem unload_result (w : World) (now : Q) (profileKey : Key) :
  ∃ w', step (Invoke now (Unload profileKey)) w = Some w'
      ∧ viewedProfiles w' = viewedProfiles w
      ∧ awaitingOperations w' = awaitingOperations w
      ∧ match loadedProfiles w !! profileKey with
        | Some profile =>
            trace w' = trace w ++ [Release profile; Print (Unloaded profileKey)]
            ∧ loadedProfiles w' = delete profileKey (loadedProfiles w)
            ∧ loadedProfiles w' !! profileKey = None
            ∧ tasks w' = tasks w ++ [Returned (RBool true)]
        | None =>
            trace w' = trace w ++ [Warn (CouldNotUnload profileKey)]
            ∧ count is_release (trace w') = count is_release (trace w)
            ∧ loadedProfiles w' = loadedProfiles w
            ∧ tasks w' = tasks w ++ [Returned (RBool false)]
        end.
Proof.
  destruct (loadedProfiles w !! profileKey) as [profile|] eqn:H.
  - rewrite (step_unload_loaded _ _ _ _ H).
    eexists. split; [reflexivity|]. cbn.
    rewrite <- app_assoc. repeat split. apply lookup_delete_eq.
  - rewrite (step_unload_absent _ _ _ H).
    eexists. split; [reflexivity|]. cbn.
    repeat split.
    + unfold count. rewrite List.filter_app, length_app. cbn. lia.
    + apply delete_id, H.
Qed.

(** Unloading a key that is only viewed returns [false] and keeps the
    view. *)
Example unload_of_viewed_key :
  ∃ w', step (Invoke 2 (Unload "P1")) P1_viewed = Some w'
      ∧ tasks w' !! 1 = Some (Returned (RBool false))
      ∧ viewedProfiles w' !! "P1" = Some 0.
Proof. eexists. split; [vm_compute; reflexivity|]. split; vm_compute; reflexivity. Qed.

(** ** Retry delays (C10, C3) *)

Lemma waits_app (tr1 tr2 : list Event) : waits (tr1 ++ tr2) = waits tr1 ++ waits tr2.
Proof. apply omap_app. Qed.

Lemma count_app (f : Event -> bool) (tr1 tr2 : list Event) :
  count f (tr1 ++ tr2) = count f tr1 + count f tr2.
Proof. unfold count. rewrite List.filter_app, length_app. reflexivity. Qed.

Lemma waits_retry_events (profileKey : Key) (d : Q) :
  waits (retry_events profileKey d) = [d].
Proof. unfold retry_events. destruct (Qgtb d 0.5); reflexivity. Qed.

Lemma lookup_new_task (ts : list Task) (task : Task) :
  (ts ++ [task]) !! length ts = Some task.
Proof. apply list_lookup_middle. reflexivity. Qed.

Lemma Qgtb_lt (a b : Q) : Qgtb a b = true <-> (b < a)%Q.
Proof.
  unfold Qgtb. rewrite negb_true_iff, <- not_true_iff_false, Qle_bool_iff.
  split; [apply Qnot_le_lt | apply Qlt_not_le].
Qed.

(** C10. When [load(profileKey, r)] is called with an explicit delay [r]
    (positive or not) on a key that is not loaded and the first store call
    fails, the first sleep lasts [r * 2]: the argument is doubled before its
    first use.  The base delay 0.1 is what is slept when the argument is
    omitted. *)
Theorem explicit_retryTime_is_doubled (w : World) (now now' : Q)
    (profileKey : Key) (r : Q) :
  loadedProfiles w !! profileKey = None ->
  let tid := length (tasks w) in
  (∃ w', exec [Invoke now (Load profileKey (Some r)); StoreReply now' tid None] w = Some w'
       ∧ tasks w' !! tid = Some (LoadSleep profileKey (r * 2))
       ∧ waits (trace w') = waits (trace w) ++ [(r * 2)%Q]
       ∧ (r * 2 == 2 * r)%Q)
  ∧ (∃ w', exec [Invoke now (Load profileKey None); StoreReply now' tid None] w = Some w'
       ∧ tasks w' !! tid = Some (LoadSleep profileKey 0.1)
       ∧ waits (trace w') = waits (trace w) ++ [0.1%Q]).
Proof.
  intros Hnone tid.
  assert (Hrun : forall retryTime,
    ∃ w', exec [Invoke now (Load profileKey retryTime); StoreReply now' tid None] w = Some w'
        ∧ tasks w' !! tid = Some (LoadSleep profileKey (next_retryTime retryTime))
        ∧ waits (trace w') = waits (trace w) ++ [next_retryTime retryTime]).
  { intros retryTime. cbn [exec].
    rewrite (step_load_store _ _ _ _ Hnone).
    erewrite step_load_failed by apply lookup_new_task.
    eexists. split; [reflexivity|]. cbn. split.
    - apply list_lookup_insert_eq. rewrite length_app. cbn. lia.
    - rewrite !waits_app. cbn. rewrite <- app_assoc. f_equal.
      destruct (Qgtb _ _); reflexivity. }
  split.
  - destruct (Hrun (Some r)) as (w' & ? & ? & ?).
    exists w'. repeat split; try assumption. ring.
  - apply (Hrun None).
Qed.

Lemma explicit_retryTime_is_doubled_witness :
  let w := init "PlayerData" ∅ in
  (0 < 0.3)%Q
  ∧ loadedProfiles w !! "P2" = None
  ∧ (∃ w', exec [Invoke 0 (Load "P2" (Some 0.3%Q)); StoreReply 1 0 None] w = Some w'
       ∧ tasks w' !! 0 = Some (LoadSleep "P2" (0.3 * 2))
       ∧ waits (trace w') = waits (trace w) ++ [(0.3 * 2)%Q]
       ∧ (0.3 * 2 == 2 * 0.3)%Q)
  ∧ (∃ w', exec [Invoke 0 (Load "P2" None); StoreReply 1 0 None] w = Some w'
       ∧ tasks w' !! 0 = Some (LoadSleep "P2" 0.1)
       ∧ waits (trace w') = waits (trace w) ++ [0.1%Q]).
Proof.
  split; [reflexivity|]. split; [reflexivity|].
  apply (explicit_retryTime_is_doubled (init "PlayerData" ∅) 0 1 "P2" 0.3%Q).
  reflexivity.
Defined.

(** A run of consecutive failures of a call that is waiting for the store:
    the call sleeps and calls the store again, once per failure, and is
    waiting for the store at the end. *)
Lemma failures_run (times : list (Q * Q)) :
  forall (w : World) (tid : nat) (profileKey : Key) (retryTime : option Q) (t : Q),
    tasks w !! tid = Some (LoadAwaitStore profileKey retryTime t) ->
    loadedProfiles w !! profileKey = None ->
    ∃ w' retryTime' t',
      exec (failures tid times) w = Some w'
      ∧ trace w' = trace w ++
          flat_map (retry_events profileKey) (retry_delays (length times) retryTime)
      ∧ tasks w' = <[tid := LoadAwaitStore profileKey retryTime' t']> (tasks w)
      ∧ loadedProfiles w' = loadedProfiles w
      ∧ profiles w' = profiles w.
Proof.
  induction times as [|[t_reply t_wake] times IH]; intros w tid profileKey retryTime t Htask Hnone.
  - exists w, retryTime, t. cbn. rewrite app_nil_r.
    repeat split. symmetry. apply list_insert_id, Htask.
  - pose proof (lookup_lt_Some _ _ _ Htask) as Hlt.
    cbn [failures exec].
    rewrite (step_load_failed _ _ _ _ _ _ Htask). cbv beta iota zeta.
    set (d := next_retryTime retryTime).
    erewrite step_load_wake; cycle 1.
    { cbn. apply list_lookup_insert_eq, Hlt. }
    { exact Hnone. }
    cbv beta iota.
    match goal with |- context [exec _ ?w1] => set (w1' := w1) end.
    destruct (IH w1' tid profileKey (Some d) t_wake) as (w' & rt' & t' & Hex & Htr & Hts & Hl & Hp).
    { cbn. apply list_lookup_insert_eq. rewrite length_insert. exact Hlt. }
    { exact Hnone. }
    exists w', rt', t'. split; [exact Hex|].
    split.
    { rewrite Htr. cbn. unfold retry_events. fold d.
      rewrite <- !app_assoc. reflexivity. }
    split.
    { rewrite Hts. cbn. rewrite !list_insert_insert_eq. reflexivity. }
    split; [rewrite Hl | rewrite Hp]; reflexivity.
Qed.

Lemma retry_delays_length (n : nat) (retryTime : option Q) :
  length (retry_delays n retryTime) = n.
Proof. revert retryTime. induction n; intros; cbn; [reflexivity | rewrite IHn; reflexivity]. Qed.

(** The [n]th delay (counting from 0) is the first one doubled [n] times. *)
Lemma retry_delays_lookup (n : nat) :
  forall (i : nat) (retryTime : option Q) (d : Q),
    retry_delays n retryTime !! i = Some d ->
    (d == next_retryTime retryTime * 2 ^ Z.of_nat i)%Q.
Proof.
  induction n as [|n IH]; intros i retryTime d H; [discriminate|].
  destruct i as [|i]; cbn in H.
  - injection H as <-. change (2 ^ Z.of_nat 0)%Q with 1%Q. ring.
  - apply IH in H. rewrite H. cbn [next_retryTime].
    rewrite Nat2Z.inj_succ, <- Z.add_1_r, Qpower_plus by discriminate.
    rewrite Qpower_1_r. ring.
Qed.

Lemma waits_retries (profileKey : Key) (ds : list Q) :
  waits (flat_map (retry_events profileKey) ds) = ds.
Proof.
  induction ds as [|d ds IH]; [reflexivity|].
  cbn [flat_map]. rewrite waits_app, waits_retry_events, IH. reflexivity.
Qed.

Lemma count_load_retries (profileKey : Key) (ds : list Q) :
  count (is_store_load profileKey) (flat_map (retry_events profileKey) ds) = length ds.
Proof.
  induction ds as [|d ds IH]; [reflexivity|].
  cbn [flat_map]. rewrite count_app, IH. unfold retry_events.
  destruct (Qgtb d 0.5); cbn; rewrite bool_decide_eq_true_2 by reflexivity; reflexivity.
Qed.

(** A warning with a given delay is part of a failed attempt exactly when
    the attempt's delay is that one and exceeds 0.5. *)
Lemma retry_events_warning (profileKey : Key) (d : Q) (m : Message) :
  In (Warn m) (retry_events profileKey d) <->
  m = CouldNotLoad profileKey d ∧ (0.5 < d)%Q.
Proof.
  unfold retry_events. destruct (Qgtb d 0.5) eqn:Hgt; cbn.
  - apply Qgtb_lt in Hgt. split.
    + intros [H|[H|[H|[]]]]; try discriminate. injection H as <-. auto.
    + intros [-> _]. auto.
  - split.
    + intros [H|[H|[]]]; discriminate.
    + intros [_ H]. apply Qgtb_lt in H. congruence.
Qed.

(** C3. [load(profileKey)] without a delay argument, on a key that is not
    loaded, with the store failing [N] times in a row ([N] is any number):
    the call sleeps [N] times, the [n]th sleep lasting [0.1 * 2^(n-1)]; a
    warning naming the key and the delay precedes a sleep exactly when the
    delay exceeds 0.5; after the [N]th sleep the call is in its [N+1]th
    store call, and it returns when that one succeeds. *)
Theorem load_backoff (w : World) (now t_ok : Q) (profileKey : Key)
    (times : list (Q * Q)) (data : Payload) :
  loadedProfiles w !! profileKey = None ->
  let tid := length (tasks w) in
  let N := length times in
  let delays := retry_delays N None in
  ∃ w1 w2,
    exec (Invoke now (Load profileKey None) :: failures tid times) w = Some w1
    ∧ trace w1 = trace w ++
        LoadProfileAsync profileKey :: flat_map (retry_events profileKey) delays
    ∧ waits (trace w1) = waits (trace w) ++ delays
    ∧ (forall n, 1 <= n <= N ->
         ∃ d, delays !! (n - 1) = Some d
            ∧ (d == 0.1 * 2 ^ (Z.of_nat n - 1))%Q
            ∧ forall m, In (Warn m) (retry_events profileKey d) <->
                        m = CouldNotLoad profileKey d ∧ (0.5 < d)%Q)
    ∧ (∃ retryTime t, tasks w1 !! tid = Some (LoadAwaitStore profileKey retryTime t))
    ∧ count (is_store_load profileKey) (trace w1) =
        count (is_store_load profileKey) (trace w) + N + 1
    ∧ step (StoreReply t_ok tid (Some data)) w1 = Some w2
    ∧ tasks w2 !! tid = Some (Returned (RProfile (Some (length (profiles w))))).
Proof.
  intros Hnone tid N delays.
  cbn [exec]. rewrite (step_load_store _ _ _ _ Hnone).
  match goal with |- context [exec _ ?w0'] => set (w0 := w0') end.
  destruct (failures_run times w0 tid profileKey None now)
    as (w1 & rt' & t' & Hex & Htr & Hts & Hl & Hp).
  { apply lookup_new_task. }
  { exact Hnone. }
  assert (Htask : tasks w1 !! tid = Some (LoadAwaitStore profileKey rt' t')).
  { rewrite Hts. apply list_lookup_insert_eq. cbn. rewrite length_app. cbn. lia. }
  assert (Htr0 : trace w0 = trace w ++ [LoadProfileAsync profileKey]) by reflexivity.
  rewrite Htr0, <- app_assoc in Htr. cbn [app] in Htr.
  exists w1. eexists. split; [exact Hex|].
  split. { exact Htr. }
  split.
  { rewrite Htr.
    change (LoadProfileAsync profileKey :: ?l) with ([LoadProfileAsync profileKey] ++ l).
    rewrite !waits_app, waits_retries. reflexivity. }
  split.
  { intros n Hn.
    destruct (lookup_lt_is_Some_2 delays (n - 1)) as [d Hd].
    { unfold delays. rewrite retry_delays_length. lia. }
    exists d. split; [exact Hd|]. split.
    - rewrite (retry_delays_lookup _ _ _ _ Hd). cbn [next_retryTime].
      replace (Z.of_nat (n - 1)) with (Z.of_nat n - 1)%Z by lia. reflexivity.
    - intros m. apply retry_events_warning. }
  split. { eauto. }
  split.
  { rewrite Htr.
    change (LoadProfileAsync profileKey :: ?l) with ([LoadProfileAsync profileKey] ++ l).
    rewrite !count_app, count_load_retries.
    unfold delays. rewrite retry_delays_length.
    unfold count at 2. cbn. rewrite bool_decide_eq_true_2 by reflexivity. cbn. lia. }
  rewrite (step_load_succeeded _ _ _ _ _ _ _ Htask). cbv zeta.
  split; [reflexivity|]. cbn.
  rewrite Hp. cbn. apply list_lookup_insert_eq.
  rewrite Hts, length_insert. cbn. rewrite length_app. cbn. lia.
Qed.

(** The store fails four times: sleeps of 0.1, 0.2, 0.4 and 0.8, and one
    warning, before the last. *)
Lemma load_backoff_witness :
  loadedProfiles (init "PlayerData" ∅) !! "P2" = None ∧
  ∃ w1,
    exec (Invoke 0 (Load "P2" None) :: failures 0 [(1, 2); (3, 4); (5, 6); (7, 8)]%Q)
         (init "PlayerData" ∅) = Some w1
    ∧ trace w1 =
        [LoadProfileAsync "P2";
         TaskWait 0.1; LoadProfileAsync "P2";
         TaskWait (2 # 10); LoadProfileAsync "P2";
         TaskWait (4 # 10); LoadProfileAsync "P2";
         Warn (CouldNotLoad "P2" (8 # 10)); TaskWait (8 # 10); LoadProfileAsync "P2"].
Proof.
  split; [reflexivity|].
  destruct (load_backoff (init "PlayerData" ∅) 0 9 "P2"
              [(1, 2); (3, 4); (5, 6); (7, 8)]%Q ∅ eq_refl)
    as (w1 & _ & Hex & Htr & _).
  exists w1. split; [exact Hex|]. exact Htr.
Defined.

(** ** Two calls of [load] in sequence (C4) *)

Lemma not_in_flight_new (profileKey : Key) (ts : list Task) (task : Task) :
  Forall (fun task => load_in_flight profileKey task = false) ts ->
  load_in_flight profileKey task = false ->
  Forall (fun task => load_in_flight profileKey task = false) (ts ++ [task]).
Proof. intros H1 H2. apply Forall_app. split; [exact H1 | repeat constructor; exact H2]. Qed.

Lemma not_in_flight_lookup (profileKey : Key) (ts : list Task) (tid : nat) (task : Task) :
  Forall (fun task => load_in_flight profileKey task = false) ts ->
  ts !! tid = Some task ->
  load_in_flight profileKey task = false.
Proof. intros H1 H2. exact (proj1 (Forall_lookup _ _) H1 _ _ H2). Qed.

Lemma not_in_flight_fire (profileKey : Key) (signal : SignalId) (profile : ProfileRef)
    (ts : list Task) :
  Forall (fun task => load_in_flight profileKey task = false) ts ->
  Forall (fun task => load_in_flight profileKey task = false)
         (map (resume_waiter signal profile) ts).
Proof.
  intros H. apply Forall_fmap. eapply Forall_impl; [exact H|].
  intros [| | k s | |] Hx; cbn; try exact Hx.
  destruct (Nat.eqb s signal); reflexivity.
Qed.

Lemma count_other (f : Event -> bool) (tr : list Event) (e : Event) :
  f e = false -> count f (tr ++ [e]) = count f tr.
Proof. intros H. rewrite count_app. unfold count at 2. cbn. rewrite H. cbn. lia. Qed.

Lemma in_flight_other_key (profileKey k : Key) :
  k ≠ profileKey -> bool_decide (k = profileKey) = false.
Proof. intros H. apply bool_decide_eq_false_2, H. Qed.

(** Once [profileKey] is loaded and no other call of [load] for it is still
    trying, every step but an [unload] of the key leaves it loaded, with the
    same profile, and makes no store load for it. *)
Lemma step_keeps_loaded (l : Label) (w w' : World) (profileKey : Key) (cached : ProfileRef) :
  step l w = Some w' ->
  loadedProfiles w !! profileKey = Some cached ->
  Forall (fun task => load_in_flight profileKey task = false) (tasks w) ->
  is_unload profileKey l = false ->
  loadedProfiles w' !! profileKey = Some cached
  ∧ Forall (fun task => load_in_flight profileKey task = false) (tasks w')
  ∧ count (is_store_load profileKey) (trace w') = count (is_store_load profileKey) (trace w).
Proof.
  intros Hstep Hl Hfl Hun. apply step_Step in Hstep.
  destruct Hstep; cbn in *.
  all: try (pose proof (not_in_flight_lookup _ _ _ _ Hfl ltac:(eassumption)) as Hk;
            cbn in Hk; apply bool_decide_eq_false_1 in Hk).
  all: repeat split;
    try assumption;
    try (apply not_in_flight_new; [assumption | cbn; try reflexivity]);
    try (apply Forall_insert; [try apply not_in_flight_fire; assumption | cbn; try reflexivity]);
    rewrite ?count_other by reflexivity; try reflexivity.
  all: try (apply in_flight_other_key; congruence).
  all: try (rewrite lookup_insert_ne by congruence; assumption).
  all: try (rewrite lookup_delete_ne;
            [assumption | apply bool_decide_eq_false_1 in Hun; congruence]).
  all: change (length (List.filter ?f ?l)) with (count f l);
    rewrite ?count_app; unfold report; repeat (destruct (Qgtb _ _));
    unfold count; cbn; rewrite ?in_flight_other_key by congruence; cbn; lia.
Qed.

Lemma exec_app (ls1 ls2 : list Label) (w : World) :
  exec (ls1 ++ ls2) w = exec ls1 w ≫= exec ls2.
Proof.
  revert w. induction ls1 as [|l ls1 IH]; intros w; cbn; [reflexivity|].
  destruct (step l w); [apply IH | reflexivity].
Qed.

Lemma exec_keeps_loaded (ls : list Label) :
  forall (w w' : World) (profileKey : Key) (cached : ProfileRef),
    exec ls w = Some w' ->
    loadedProfiles w !! profileKey = Some cached ->
    Forall (fun task => load_in_flight profileKey task = false) (tasks w) ->
    Forall (fun l => is_unload profileKey l = false) ls ->
    loadedProfiles w' !! profileKey = Some cached
    ∧ count (is_store_load profileKey) (trace w') = count (is_store_load profileKey) (trace w).
Proof.
  induction ls as [|l ls IH]; intros w w' profileKey cached Hex Hl Hfl Hun.
  - injection Hex as <-. auto.
  - cbn in Hex. destruct (step l w) as [w1|] eqn:Hstep; [|discriminate].
    apply Forall_cons in Hun as [Hun1 Hun].
    destruct (step_keeps_loaded _ _ _ _ _ Hstep Hl Hfl Hun1) as (Hl1 & Hfl1 & Hc1).
    destruct (IH _ _ _ _ Hex Hl1 Hfl1 Hun) as (Hl' & Hc').
    split; [exact Hl' | congruence].
Qed.

(** Nothing resumes a call that has returned. *)
Lemma own_run_returned (rest : list Label) (w w1 : World) (tid : nat) (result : Result) :
  tasks w !! tid = Some (Returned result) ->
  Forall (fun l => own_label tid l = true) rest ->
  exec rest w = Some w1 ->
  rest = [] ∧ w1 = w.
Proof.
  intros Htask Hown Hex. destruct rest as [|l rest].
  - injection Hex as <-. auto.
  - exfalso. apply Forall_cons in Hown as [Hl _].
    destruct l as [now c|now t answer|now t]; cbn in Hl; try discriminate Hl;
      apply Nat.eqb_eq in Hl as ->; cbn in Hex; unfold step, resumed in Hex;
      rewrite Htask in Hex; discriminate Hex.
Qed.

(** A call of [load(profileKey)] that runs alone from its store call, or
    from its sleep, to its return: it returns a profile, which is then the
    one in [loadedProfiles], and every store call it made was answered. *)
Lemma own_run (rest : list Label) :
  forall (w w1 : World) (tid : nat) (profileKey : Key) (result : Result),
    Forall (fun l => own_label tid l = true) rest ->
    exec rest w = Some w1 ->
    tasks w1 !! tid = Some (Returned result) ->
    loadedProfiles w !! profileKey = None ->
    match tasks w !! tid with
    | Some (LoadAwaitStore k _ _) =>
        k = profileKey ->
        ∃ profile, result = RProfile (Some profile)
          ∧ loadedProfiles w1 !! profileKey = Some profile
          ∧ count (is_store_load profileKey) (trace w1) + 1 =
              count (is_store_load profileKey) (trace w) + attempts rest
    | Some (LoadSleep k _) =>
        k = profileKey ->
        ∃ profile, result = RProfile (Some profile)
          ∧ loadedProfiles w1 !! profileKey = Some profile
          ∧ count (is_store_load profileKey) (trace w1) =
              count (is_store_load profileKey) (trace w) + attempts rest
    | _ => True
    end.
Proof.
  induction rest as [|l rest IH]; intros w w1 tid profileKey result Hown Hex Hret Hnone.
  - injection Hex as <-. rewrite Hret. exact I.
  - apply Forall_cons in Hown as [Hl Hown]. cbn [exec] in Hex.
    destruct (step l w) as [w'|] eqn:Hstep; [|discriminate Hex].
    destruct (tasks w !! tid) as [[k rt t|k rt| | |]|] eqn:Htask; try exact I.
    + (* inside the store call *)
      intros ->.
      destruct l as [now c|now t0 [data|]|now t0]; cbn in Hl; try discriminate Hl;
        apply Nat.eqb_eq in Hl as ->.
      * (* the store answers with a profile *)
        rewrite (step_load_succeeded _ _ _ _ _ _ _ Htask) in Hstep.
        cbv zeta in Hstep. injection Hstep as <-.
        match type of Hex with exec _ ?w0 = _ => set (w' := w0) in * end.
        assert (Htask' : tasks w' !! tid =
                  Some (Returned (RProfile (Some (length (profiles w)))))).
        { apply list_lookup_insert_eq. eapply lookup_lt_Some, Htask. }
        destruct (own_run_returned rest w' w1 tid _ Htask' Hown Hex) as [-> ->].
        rewrite Htask' in Hret. injection Hret as <-.
        eexists. split; [reflexivity|].
        split; [apply lookup_insert_eq|].
        subst w'. simpl_world. count_step; lia.
      * (* the store fails *)
        rewrite (step_load_failed _ _ _ _ _ _ Htask) in Hstep.
        cbv zeta in Hstep. injection Hstep as <-.
        match type of Hex with exec _ ?w0 = _ => set (w' := w0) in * end.
        pose proof (IH w' w1 tid profileKey result Hown Hex Hret Hnone) as Hrest.
        replace (tasks w' !! tid) with (Some (LoadSleep profileKey (next_retryTime rt)))
          in Hrest
          by (symmetry; apply list_lookup_insert_eq; eapply lookup_lt_Some, Htask).
        destruct (Hrest eq_refl) as (profile & -> & Hl1 & Hc).
        exists profile. split; [reflexivity|]. split; [exact Hl1|].
        rewrite Hc. subst w'. simpl_world. unfold attempts. count_step; lia.
      * (* a sleep that has not begun cannot end *)
        unfold step, resumed in Hstep. rewrite Htask in Hstep. discriminate Hstep.
    + (* asleep *)
      intros ->.
      destruct l as [now c|now t0 answer|now t0]; cbn in Hl; try discriminate Hl;
        apply Nat.eqb_eq in Hl as ->.
      * unfold step, resumed in Hstep. rewrite Htask in Hstep. discriminate Hstep.
      * rewrite (step_load_wake _ _ _ _ _ Htask Hnone) in Hstep. injection Hstep as <-.
        match type of Hex with exec _ ?w0 = _ => set (w' := w0) in * end.
        pose proof (IH w' w1 tid profileKey result Hown Hex Hret Hnone) as Hrest.
        replace (tasks w' !! tid) with (Some (LoadAwaitStore profileKey (Some rt) now))
          in Hrest
          by (symmetry; apply list_lookup_insert_eq; eapply lookup_lt_Some, Htask).
        destruct (Hrest eq_refl) as (profile & -> & Hl1 & Hc).
        exists profile. split; [reflexivity|]. split; [exact Hl1|].
        subst w'. simpl_world. revert Hc. unfold attempts. count_step.
        rewrite bool_decide_eq_true_2 by reflexivity. cbn. lia.
Qed.

(** C4, as the code has it.  [load(profileKey)] is called and runs, alone,
    until it returns ([rest] are the store's answers to it and the ends of
    its sleeps).  Then anything but an [unload] of the key happens ([mid];
    if anything happens at all, no other call of [load] for the key is under
    way), and [load(profileKey)] is called again.  The second call returns
    at once, with the same profile object as the first, and contacts the
    store not at all.  The store loads of the key are those of the first
    call, one for each of its attempts: none on a cache hit, one if the
    first attempt succeeds, one more for every failure. *)
Theorem load_twice_same_record (w w1 w2 : World) (now now2 : Q) (profileKey : Key)
    (retryTime retryTime2 : option Q) (rest mid : list Label) (result : Result) :
  let tid := length (tasks w) in
  Forall (fun l => own_label tid l = true) rest ->
  exec (Invoke now (Load profileKey retryTime) :: rest) w = Some w1 ->
  tasks w1 !! tid = Some (Returned result) ->
  Forall (fun l => is_unload profileKey l = false) mid ->
  mid = [] ∨ Forall (fun task => load_in_flight profileKey task = false) (tasks w1) ->
  exec mid w1 = Some w2 ->
  ∃ w3 profile,
    result = RProfile (Some profile)
    ∧ count (is_store_load profileKey) (trace w1) =
        count (is_store_load profileKey) (trace w) + attempts rest
    ∧ step (Invoke now2 (Load profileKey retryTime2)) w2 = Some w3
    ∧ tasks w3 = tasks w2 ++ [Returned (RProfile (Some profile))]
    ∧ trace w3 = trace w2
    ∧ count (is_store_load profileKey) (trace w3) =
        count (is_store_load profileKey) (trace w) + attempts rest.
Proof.
  intros tid Hown Hex1 Hret Hmid Hfl Hex2.
  assert (Hfirst : ∃ profile, result = RProfile (Some profile)
            ∧ loadedProfiles w1 !! profileKey = Some profile
            ∧ count (is_store_load profileKey) (trace w1) =
                count (is_store_load profileKey) (trace w) + attempts rest).
  { cbn [exec] in Hex1.
    destruct (loadedProfiles w !! profileKey) as [cached|] eqn:Hl.
    - rewrite (step_load_cached _ _ _ _ _ Hl) in Hex1.
      match type of Hex1 with exec _ ?w0 = _ => set (w' := w0) in * end.
      assert (Htask' : tasks w' !! tid = Some (Returned (RProfile (Some cached))))
        by apply lookup_new_task.
      destruct (own_run_returned rest w' w1 tid _ Htask' Hown Hex1) as [-> ->].
      rewrite Htask' in Hret. injection Hret as <-.
      exists cached. split; [reflexivity|]. split; [exact Hl|].
      subst w'. unfold attempts, count. cbn. lia.
    - rewrite (step_load_store _ _ _ _ Hl) in Hex1.
      match type of Hex1 with exec _ ?w0 = _ => set (w' := w0) in * end.
      pose proof (own_run rest w' w1 tid profileKey result Hown Hex1 Hret Hl) as Hrun.
      replace (tasks w' !! tid) with (Some (LoadAwaitStore profileKey retryTime now))
        in Hrun by (symmetry; apply lookup_new_task).
      destruct (Hrun eq_refl) as (profile & -> & Hl1 & Hc).
      exists profile. split; [reflexivity|]. split; [exact Hl1|].
      revert Hc. subst w'. simpl_world. unfold attempts. count_step.
      rewrite bool_decide_eq_true_2 by reflexivity. cbn. lia. }
  destruct Hfirst as (profile & -> & Hl1 & Hc1).
  assert (Hkept : loadedProfiles w2 !! profileKey = Some profile
            ∧ count (is_store_load profileKey) (trace w2) =
                count (is_store_load profileKey) (trace w1)).
  { destruct Hfl as [-> | Hfl].
    - injection Hex2 as <-. auto.
    - eapply exec_keeps_loaded; eassumption. }
  destruct Hkept as [Hl2 Hc2].
  eexists. exists profile. split; [reflexivity|]. split; [exact Hc1|].
  rewrite (step_load_cached _ _ _ _ _ Hl2).
  split; [reflexivity|]. split; [reflexivity|]. split; [reflexivity|].
  change (count (is_store_load profileKey) (trace w2) =
          count (is_store_load profileKey) (trace w) + attempts rest).
  rewrite Hc2. exact Hc1.
Qed.

(** The store fails once; between the two calls the key is viewed and
    saved. *)
Lemma load_twice_same_record_witness :
  let w1 := default (init "PlayerData" ∅) P2_once_failed in
  let w2 := P2_loaded_viewed_saved in
  P2_once_failed = Some w1
  ∧ tasks w1 !! 0 = Some (Returned (RProfile (Some 0)))
  ∧ exec [Invoke 4 (View "P2"); Invoke 5 (SaveProfile "P2")] w1 = Some w2
  ∧ ∃ w3,
      step (Invoke 6 (Load "P2" None)) w2 = Some w3
      ∧ tasks w3 = tasks w2 ++ [Returned (RProfile (Some 0))]
      ∧ trace w3 = trace w2
      ∧ count (is_store_load "P2") (trace w3) = 2.
Proof.
  intros w1 w2.
  assert (H1 : P2_once_failed = Some w1) by (vm_compute; reflexivity).
  assert (H2 : tasks w1 !! 0 = Some (Returned (RProfile (Some 0))))
    by (vm_compute; reflexivity).
  assert (H3 : exec [Invoke 4 (View "P2"); Invoke 5 (SaveProfile "P2")] w1 = Some w2)
    by (vm_compute; reflexivity).
  split; [exact H1|]. split; [exact H2|]. split; [exact H3|].
  destruct (load_twice_same_record (init "PlayerData" ∅) w1 w2 0 6 "P2" None None
              [StoreReply 1 0 None; Wake 2 0; StoreReply 3 0 (Some ∅)]
              [Invoke 4 (View "P2"); Invoke 5 (SaveProfile "P2")]
              (RProfile (Some 0)))
    as (w3 & profile & Hp & _ & Hstep & Hts & Htr & Hc).
  - repeat constructor.
  - exact H1.
  - exact H2.
  - repeat constructor.
  - right. vm_compute. repeat constructor.
  - exact H3.
  - injection Hp as <-. exists w3. auto.
Defined.

(** C4 as stated fails when the first call has to retry: with one failure,
    the two calls make two store calls. *)
Lemma load_twice_two_store_calls :
  ∃ w', exec [Invoke 0 (Load "P2" None); StoreReply 1 0 None; Wake 2 0;
              StoreReply 3 0 (Some ∅); Invoke 4 (Load "P2" None)]
             (init "PlayerData" ∅) = Some w'
      ∧ tasks w' = [Returned (RProfile (Some 0)); Returned (RProfile (Some 0))]
      ∧ count is_store_call (trace w') = 2
      ∧ ¬ (count is_store_call (trace w') <= 1).
Proof.
  eexists. split; [vm_compute; reflexivity|].
  split; [reflexivity|]. split; [reflexivity|]. cbn. lia.
Qed.

(** ** Reconciliation (C7) *)

(** Reconciling keeps every field of the payload and takes the others from
    the template. *)
Lemma reconcile_lookup (template data : Payload) (field : string) :
  reconcile template data !! field =
    match data !! field with
    | Some v => Some v
    | None => template !! field
    end.
Proof.
  unfold reconcile. rewrite lookup_union.
  destruct (data !! field), (template !! field); reflexivity.
Qed.

(** C7. When the store call of [load(profileKey)] succeeds, the profile is
    reconciled with the template exactly once in the step in which [load]
    returns it: every field the payload had keeps its value, every other
    field of the template is added, and the reconciled profile is the one
    cached under [loadedProfiles[profileKey]].  A [load] that finds the key
    in [loadedProfiles] reconciles nothing.  With template
    [{coins: 0, level: 1}] and stored payload [{coins: 50}] the result is
    [{coins: 50, level: 1}]. *)
Theorem load_reconciles_once (w : World) (now : Q) (tid : nat) (profileKey : Key)
    (retryTime : option Q) (t : Q) (data : Payload)
    (w0 : World) (now0 : Q) (retryTime0 : option Q) (cached : ProfileRef) :
  tasks w !! tid = Some (LoadAwaitStore profileKey retryTime t) ->
  loadedProfiles w0 !! profileKey = Some cached ->
  (∃ w' evs,
     let profile := length (profiles w) in
     step (StoreReply now tid (Some data)) w = Some w'
     ∧ tasks w' !! tid = Some (Returned (RProfile (Some profile)))
     ∧ loadedProfiles w' !! profileKey = Some profile
     ∧ profiles w' !! profile = Some (reconcile (template w) data)
     ∧ (forall field,
          reconcile (template w) data !! field =
            match data !! field with
            | Some v => Some v
            | None => template w !! field
            end)
     ∧ trace w' = trace w ++ evs
     ∧ count is_reconcile evs = 1
     ∧ In (Reconcile profile) evs)
  ∧ (∃ w0',
       step (Invoke now0 (Load profileKey retryTime0)) w0 = Some w0'
       ∧ tasks w0' = tasks w0 ++ [Returned (RProfile (Some cached))]
       ∧ trace w0' = trace w0
       ∧ profiles w0' = profiles w0)
  ∧ reconcile {[ "coins" := VNum 0; "level" := VNum 1 ]} {[ "coins" := VNum 50 ]}
      = {[ "coins" := VNum 50; "level" := VNum 1 ]}.
Proof.
  intros Htask Hcached. split; [|split].
  - rewrite (step_load_succeeded _ _ _ _ _ _ _ Htask). cbv zeta.
    eexists. eexists. split; [reflexivity|]. cbn.
    split. { apply list_lookup_insert_eq. eapply lookup_lt_Some, Htask. }
    split. { apply lookup_insert_eq. }
    split. { rewrite list_lookup_alter_eq, list_lookup_middle by reflexivity. reflexivity. }
    split. { apply reconcile_lookup. }
    split. { reflexivity. }
    split.
    + unfold report. destruct (Qgtb _ _); reflexivity.
    + left. reflexivity.
  - rewrite (step_load_cached _ _ _ _ _ Hcached).
    eexists. split; [reflexivity|]. cbn. auto.
  - apply map_eq. intros field. rewrite reconcile_lookup.
    destruct (decide (field = "coins")) as [->|Hc]; [reflexivity|].
    destruct (decide (field = "level")) as [->|Hl]; [reflexivity|].
    rewrite lookup_singleton_ne by congruence.
    rewrite !lookup_insert_ne by congruence. reflexivity.
Qed.

(** The scenario of the specification: the store call of [load("P1")] is
    answered with [{coins: 50}]; afterwards [load("P1")] is called again. *)
Lemma load_reconciles_once_witness :
  let w := default (init "PlayerData" P1_template)
             (exec [Invoke 0 (Load "P1" None)] (init "PlayerData" P1_template)) in
  tasks w !! 0 = Some (LoadAwaitStore "P1" None 0)
  ∧ loadedProfiles P1_loaded !! "P1" = Some 0
  ∧ (∃ w', step (StoreReply 1 0 (Some P1_stored)) w = Some w'
         ∧ tasks w' !! 0 = Some (Returned (RProfile (Some 0)))
         ∧ loadedProfiles w' !! "P1" = Some 0
         ∧ profiles w' !! 0 = Some (reconcile P1_template P1_stored)
         ∧ count is_reconcile (trace w') = 1)
  ∧ (∃ w0', step (Invoke 2 (Load "P1" None)) P1_loaded = Some w0'
          ∧ trace w0' = trace P1_loaded).
Proof.
  intros w.
  split; [reflexivity|]. split; [reflexivity|].
  destruct (load_reconciles_once w 1 0 "P1" None 0 P1_stored P1_loaded 2 None 0
              eq_refl eq_refl)
    as ((w' & evs & Hstep & Htask & Hl & Hp & _ & Htr & Hcount & _) & (w0' & Hstep0 & _ & Htr0 & _) & _).
  split.
  - exists w'. repeat split; try assumption.
    rewrite Htr, count_app, Hcount. reflexivity.
  - exists w0'. split; assumption.
Defined.

(** ** Invariants of the reachable states (C2, C9) *)

Lemma resume_waiter_store (signal : SignalId) (profile : ProfileRef) (task : Task)
    (k : Key) (s : SignalId) (t : Q) :
  resume_waiter signal profile task = ViewAwaitStore k s t ->
  task = ViewAwaitStore k s t.
Proof. destruct task; cbn; try congruence. destruct (Nat.eqb _ _); congruence. Qed.

Lemma resume_waiter_signal (signal : SignalId) (profile : ProfileRef) (task : Task)
    (k : Key) (s : SignalId) :
  resume_waiter signal profile task = ViewAwaitSignal k s ->
  task = ViewAwaitSignal k s ∧ s ≠ signal.
Proof.
  destruct task as [| |k' s'| |]; cbn; try congruence.
  destruct (Nat.eqb s' signal) eqn:E; [congruence|].
  intros [= -> ->]. split; [reflexivity|]. apply Nat.eqb_neq, E.
Qed.

Lemma lookup_resumed (signal : SignalId) (profile : ProfileRef) (ts : list Task)
    (i : nat) (task : Task) :
  map (resume_waiter signal profile) ts !! i = Some task ->
  ∃ task0, ts !! i = Some task0 ∧ resume_waiter signal profile task0 = task.
Proof.
  change (map ?f ts) with (f <$> ts). rewrite list_lookup_fmap.
  destruct (ts !! i) as [task0|]; cbn; [|discriminate].
  intros [= <-]. eauto.
Qed.

Lemma Inv_init (name : string) (template : Payload) : Inv (init name template).
Proof.
  split; cbn; intros; try discriminate; try lia.
  all: rewrite ?lookup_nil in *; try discriminate.
  all: try reflexivity.
Qed.

(** Find out where a task that is looked up in the new list of tasks was
    in the old one, and what an entry of a new map was in the old one. *)
Ltac old_state :=
  repeat match goal with
         | H : (_ ++ [_]) !! _ = Some _ |- _ =>
             apply lookup_snoc_Some in H as [[? H]|[? ?]]
         | H : <[_ := _]> _ !! _ = Some _ |- _ =>
             first [ apply list_lookup_insert_Some in H as [(? & ? & ?)|[? H]]
                   | apply lookup_insert_Some in H as [[? ?]|[? H]] ]
         | H : <[_ := _]> _ !! _ = None |- _ =>
             apply lookup_insert_None in H as [H ?]
         | H : delete _ _ !! _ = Some _ |- _ =>
             apply lookup_delete_Some in H as [? H]
         | H : delete _ _ !! _ = None |- _ =>
             apply lookup_delete_None in H as [?|H]
         | H : map (resume_waiter _ _) _ !! _ = Some (ViewAwaitStore _ _ _) |- _ =>
             apply lookup_resumed in H as (? & H & ?%resume_waiter_store)
         | H : map (resume_waiter _ _) _ !! _ = Some (ViewAwaitSignal _ _) |- _ =>
             apply lookup_resumed in H as (? & H & [? ?]%resume_waiter_signal)
         end;
  simplify_eq.

Lemma Inv_Step (l : Label) (w w' : World) : Inv w -> Step l w w' -> Inv w'.
Proof.
  intros [Ipend Iuniq Iasked Ionce Inotv Iwait Iknown Iinj] Hstep.
  destruct Hstep; split; simpl_world; try assumption.
  all: intros; old_state; eauto.
  all: use_inv Ipend Iasked Ionce Iwait Iknown.
  all: try (count_step; lia).
  all: try (rewrite ?lookup_insert_eq, ?lookup_insert_ne, ?lookup_delete_ne by congruence;
            eauto; fail).
  all: try congruence.
  all: try lia.
  - destruct (decide (profileKey = k)) as [->|Hne].
    + count_step. rewrite bool_decide_eq_true_2 by reflexivity. cbn.
      unfold count in *. lia.
    + count_step. lia.
  - assert (profileKey ≠ k) as Hne.
    { intros ->. apply H1. eapply Iuniq; eassumption. }
    rewrite lookup_insert_ne, lookup_delete_ne by exact Hne. auto.
Qed.

Lemma Inv_exec (ls : list Label) :
  forall w w', Inv w -> exec ls w = Some w' -> Inv w'.
Proof.
  induction ls as [|l ls IH]; intros w w' HI Hex; cbn in Hex.
  - injection Hex as <-. exact HI.
  - destruct (step l w) as [w1|] eqn:Hstep; [|discriminate].
    eapply IH; [|exact Hex]. eapply Inv_Step; [exact HI|]. apply step_Step, Hstep.
Qed.

Lemma Inv_reachable (w : World) : reachable w -> Inv w.
Proof. intros (name & template & ls & Hex). eapply Inv_exec; [apply Inv_init | exact Hex]. Qed.

(** No step removes or replaces a cached view. *)
Lemma Step_keeps_viewed (l : Label) (w w' : World) (profileKey : Key) (viewCached : ProfileRef) :
  Inv w -> Step l w w' ->
  viewedProfiles w !! profileKey = Some viewCached ->
  viewedProfiles w' !! profileKey = Some viewCached.
Proof.
  intros HI Hstep Hv. destruct Hstep; simpl_world; try assumption.
  rewrite lookup_insert_ne; [assumption|].
  intros ->. destruct (inv_view_pending _ HI _ _ _ _ H) as [Hnone _]. congruence.
Qed.

Lemma exec_keeps_viewed (ls : list Label) :
  forall (w w' : World) (profileKey : Key) (viewCached : ProfileRef),
    Inv w -> exec ls w = Some w' ->
    viewedProfiles w !! profileKey = Some viewCached ->
    viewedProfiles w' !! profileKey = Some viewCached.
Proof.
  induction ls as [|l ls IH]; intros w w' profileKey viewCached HI Hex Hv; cbn in Hex.
  - injection Hex as <-. exact Hv.
  - destruct (step l w) as [w1|] eqn:Hstep; [|discriminate].
    apply step_Step in Hstep.
    eapply IH; [eapply Inv_Step; eassumption | exact Hex |].
    eapply Step_keeps_viewed; eassumption.
Qed.

(** C9. Nothing the manager does removes an entry of [viewedProfiles]: once
    a view of [profileKey] is cached, it is still cached, with the same
    profile object, after any further calls and answers, and [view] returns
    it without contacting the store whenever the key is not loaded. *)
Theorem viewed_cache_is_never_cleared (w w' : World) (ls : list Label) (now : Q)
    (profileKey : Key) (viewCached : ProfileRef) :
  reachable w ->
  viewedProfiles w !! profileKey = Some viewCached ->
  exec ls w = Some w' ->
  viewedProfiles w' !! profileKey = Some viewCached
  ∧ (loadedProfiles w' !! profileKey = None ->
     ∃ w'', step (Invoke now (View profileKey)) w' = Some w''
          ∧ tasks w'' = tasks w' ++ [Returned (RProfile (Some viewCached))]
          ∧ trace w'' = trace w').
Proof.
  intros Hreach Hv Hex.
  assert (Hv' : viewedProfiles w' !! profileKey = Some viewCached).
  { eapply exec_keeps_viewed; [apply Inv_reachable, Hreach | exact Hex | exact Hv]. }
  split; [exact Hv'|].
  intros Hl. rewrite (step_view_viewed _ _ _ _ Hl Hv').
  eexists. split; [reflexivity|]. split; reflexivity.
Qed.

(** "P1" is viewed (stored coins: 50), then loaded with a changed payload,
    saved and unloaded: [view("P1")] still returns the first snapshot,
    object 0. *)
Lemma viewed_cache_is_never_cleared_witness :
  reachable P1_viewed
  ∧ viewedProfiles P1_viewed !! "P1" = Some 0
  ∧ ∃ w', exec P1_viewed_then_released P1_viewed = Some w'
        ∧ viewedProfiles w' !! "P1" = Some 0
        ∧ loadedProfiles w' !! "P1" = None
        ∧ ∃ w'', step (Invoke 6 (View "P1")) w' = Some w''
               ∧ tasks w'' = tasks w' ++ [Returned (RProfile (Some 0))]
               ∧ trace w'' = trace w'.
Proof.
  assert (Hreach : reachable P1_viewed).
  { exists "PlayerData", P1_template,
      [Invoke 0 (View "P1"); StoreReply 1 0 (Some P1_stored)].
    vm_compute. reflexivity. }
  split; [exact Hreach|]. split; [reflexivity|].
  destruct (exec P1_viewed_then_released P1_viewed) as [w'|] eqn:Hex;
    [|vm_compute in Hex; discriminate Hex].
  exists w'. split; [reflexivity|].
  destruct (viewed_cache_is_never_cleared P1_viewed w' P1_viewed_then_released 6 "P1" 0
              Hreach eq_refl Hex) as [Hv Hview].
  split; [exact Hv|].
  assert (Hl : loadedProfiles w' !! "P1" = None).
  { vm_compute in Hex. injection Hex as <-. reflexivity. }
  split; [exact Hl|]. exact (Hview Hl).
Defined.

(** ** One awaiting operation and one store call per key (C2) *)

Lemma filter_key_absent {A} (k : Key) (l : list (string * A)) :
  k ∉ l.*1 -> List.filter (fun kv => bool_decide (kv.1 = k)) l = [].
Proof.
  induction l as [|[k1 v] l IH]; intros Hnotin; [reflexivity|].
  cbn in *. apply not_elem_of_cons in Hnotin as [Hne Hnotin].
  rewrite bool_decide_eq_false_2 by congruence. apply IH, Hnotin.
Qed.

Lemma entries_for_at_most_one {A} (k : Key) (m : gmap string A) :
  length (entries_for k m) <= 1.
Proof.
  unfold entries_for. pose proof (NoDup_fst_map_to_list m) as Hnd.
  induction (map_to_list m) as [|[k1 v] l IH]; [cbn; lia|].
  cbn in *. apply NoDup_cons in Hnd as [Hnotin Hnd].
  destruct (bool_decide (k1 = k)) eqn:Hk.
  - apply bool_decide_eq_true_1 in Hk as ->.
    rewrite (filter_key_absent _ _ Hnotin). cbn. lia.
  - apply IH, Hnd.
Qed.

Lemma filter_at_most_one {A} (f : A -> bool) (l : list A) :
  (forall i j x y, l !! i = Some x -> l !! j = Some y ->
                   f x = true -> f y = true -> i = j) ->
  length (List.filter f l) <= 1.
Proof.
  induction l as [|x l IH]; intros Huniq; [cbn; lia|].
  assert (IHl : length (List.filter f l) <= 1).
  { apply IH. intros i j a b Hi Hj Ha Hb.
    assert (S i = S j) by (eapply Huniq; eassumption). lia. }
  cbn. destruct (f x) eqn:Hx; [|exact IHl].
  destruct (List.filter f l) as [|y rest] eqn:Hfl; [cbn; lia|].
  exfalso.
  assert (Hy : In y (List.filter f l)) by (rewrite Hfl; left; reflexivity).
  apply List.filter_In in Hy as [Hin Hfy].
  apply list_elem_of_In, list_elem_of_lookup in Hin as [j Hj].
  assert (0 = S j) by (eapply (Huniq 0 (S j) x y); [reflexivity | exact Hj | exact Hx | exact Hfy]).
  lia.
Qed.

(** The store's view is called only by the step of [view] that found no
    awaiting operation, and that step registers one. *)
Lemma Step_view_call (l : Label) (w w' : World) (k : Key) :
  Step l w w' ->
  count (is_store_view k) (trace w') ≠ count (is_store_view k) (trace w) ->
  l = Invoke (label_now l) (View k)
  ∧ awaitingOperations w !! k = None
  ∧ awaitingOperations w' !! k = Some (OpView, signals w)
  ∧ tasks w' = tasks w ++ [ViewAwaitStore k (signals w) (label_now l)].
Proof.
  intros Hstep Hcount. destruct Hstep; simpl_world.
  all: try (exfalso; apply Hcount; count_step; lia).
  destruct (decide (profileKey = k)) as [->|Hne].
  - cbn. rewrite lookup_insert_eq. auto.
  - exfalso. apply Hcount. count_step. lia.
Qed.

(** C2. In every reachable state and for every key: each of the three maps
    has at most one entry for the key; at most one call of [view] for the
    key is inside the store call, and the store was asked to view the key
    at most once; a step calls the store's view for the key only if it is a
    call of [view] for that key that finds no awaiting operation, and that
    same step registers the awaiting operation (nothing runs in between); a
    call of [view] that arrives while an operation is awaited does not
    contact the store: it suspends on the signal of that operation (or, by
    the precedence of C5, returns the loaded profile if the key has been
    loaded meanwhile; a cached view cannot exist then). *)
Theorem view_deduplicates (w : World) (k : Key) :
  reachable w ->
  length (entries_for k (awaitingOperations w)) <= 1
  ∧ length (entries_for k (loadedProfiles w)) <= 1
  ∧ length (entries_for k (viewedProfiles w)) <= 1
  ∧ length (List.filter (view_in_flight k) (tasks w)) <= 1
  ∧ count (is_store_view k) (trace w) <= 1
  ∧ (forall l w',
       step l w = Some w' ->
       count (is_store_view k) (trace w') ≠ count (is_store_view k) (trace w) ->
       l = Invoke (label_now l) (View k)
       ∧ awaitingOperations w !! k = None
       ∧ awaitingOperations w' !! k = Some (OpView, signals w)
       ∧ tasks w' = tasks w ++ [ViewAwaitStore k (signals w) (label_now l)])
  ∧ (forall now ty signal,
       awaitingOperations w !! k = Some (ty, signal) ->
       ∃ w', step (Invoke now (View k)) w = Some w'
           ∧ trace w' = trace w
           ∧ awaitingOperations w' = awaitingOperations w
           ∧ tasks w' = tasks w ++
               [match loadedProfiles w !! k with
                | Some cached => Returned (RProfile (Some cached))
                | None => ViewAwaitSignal k signal
                end]).
Proof.
  intros Hreach. pose proof (Inv_reachable _ Hreach) as HI.
  split; [apply entries_for_at_most_one|].
  split; [apply entries_for_at_most_one|].
  split; [apply entries_for_at_most_one|].
  split.
  { apply filter_at_most_one. intros i j x y Hi Hj Hx Hy.
    destruct x as [| | |k1 s1 t1|]; try discriminate Hx.
    destruct y as [| | |k2 s2 t2|]; try discriminate Hy.
    cbn in Hx, Hy. apply bool_decide_eq_true_1 in Hx, Hy. subst k1 k2.
    eapply (inv_view_unique _ HI); eassumption. }
  split; [apply (inv_view_once _ HI)|].
  split.
  { intros l w' Hstep. apply Step_view_call, step_Step, Hstep. }
  intros now ty signal Ha.
  pose proof (inv_pending_not_viewed _ HI _ _ Ha) as Hv.
  destruct (loadedProfiles w !! k) as [cached|] eqn:Hl.
  - rewrite (step_view_loaded _ _ _ _ Hl).
    eexists. split; [reflexivity|]. cbn. auto.
  - rewrite (step_view_pending _ _ _ _ _ Hl Hv Ha).
    eexists. split; [reflexivity|]. cbn. auto.
Qed.

(** Two calls of [view("P3")] before the store answers: one store call, one
    awaiting operation; a third call waits as well. *)
Lemma view_deduplicates_witness :
  reachable P3_two_views
  ∧ tasks P3_two_views = [ViewAwaitStore "P3" 0 0; ViewAwaitSignal "P3" 0]
  ∧ count (is_store_view "P3") (trace P3_two_views) <= 1
  ∧ length (List.filter (view_in_flight "P3") (tasks P3_two_views)) <= 1
  ∧ ∃ w', step (Invoke 2 (View "P3")) P3_two_views = Some w'
        ∧ tasks w' = tasks P3_two_views ++ [ViewAwaitSignal "P3" 0]
        ∧ trace w' = trace P3_two_views.
Proof.
  assert (Hreach : reachable P3_two_views).
  { exists "PlayerData", ∅, [Invoke 0 (View "P3"); Invoke 1 (View "P3")].
    vm_compute. reflexivity. }
  destruct (view_deduplicates P3_two_views "P3" Hreach)
    as (_ & _ & _ & Hflight & Honce & _ & Hwait).
  split; [exact Hreach|]. split; [reflexivity|].
  split; [exact Honce|]. split; [exact Hflight|].
  destruct (Hwait 2%Q OpView 0 eq_refl) as (w' & Hstep & Htr & _ & Hts).
  exists w'. auto.
Defined.

(** ** A view that is not found (C1) *)

Lemma Step_keeps_abandoned (l : Label) (w w' : World) (profileKey : Key) (signal : SignalId) :
  Inv w -> Step l w w' -> abandoned profileKey signal w -> abandoned profileKey signal w'.
Proof.
  intros [Ipend Iuniq Iasked Ionce Inotv Iwait Iknown Iinj] Hstep (Ha & Hv & Hnone).
  destruct Hstep; (split; [|split]); simpl_world; try assumption.
  all: try (intros tid' s' t' Htask; old_state; eapply Hnone; eassumption).
  - rewrite lookup_insert_ne; [assumption | congruence].
  - rewrite lookup_delete_ne; [assumption|]. intros ->. eapply Hnone; eassumption.
  - rewrite lookup_insert_ne; [assumption|]. intros ->. eapply Hnone; eassumption.
Qed.

(** A returned call stays returned. *)
Lemma Step_keeps_returned (l : Label) (w w' : World) (tid : nat) (result : Result) :
  Step l w w' ->
  tasks w !! tid = Some (Returned result) ->
  tasks w' !! tid = Some (Returned result).
Proof.
  intros Hstep Htask. destruct Hstep; simpl_world.
  all: try (apply lookup_app_l_Some; assumption).
  all: try (rewrite list_lookup_insert_ne by congruence; try assumption).
  change (map ?f ?ts) with (f <$> ts). rewrite list_lookup_fmap, Htask. reflexivity.
Qed.

(** While a key is abandoned, a call waiting for the signal of its awaiting
    operation keeps waiting: nothing fires that signal. *)
Lemma Step_keeps_waiting (l : Label) (w w' : World) (profileKey : Key)
    (signal : SignalId) (tid : nat) :
  Inv w -> Step l w w' -> abandoned profileKey signal w ->
  tasks w !! tid = Some (ViewAwaitSignal profileKey signal) ->
  tasks w' !! tid = Some (ViewAwaitSignal profileKey signal).
Proof.
  intros HI Hstep (Ha & Hv & Hnone) Htask. destruct Hstep; simpl_world.
  all: try (apply lookup_app_l_Some; assumption).
  all: try (rewrite list_lookup_insert_ne by congruence; try assumption).
  change (map ?f ?ts) with (f <$> ts). rewrite list_lookup_fmap, Htask. cbn.
  destruct (Nat.eqb signal signal0) eqn:E; [|reflexivity].
  apply Nat.eqb_eq in E as <-. exfalso.
  destruct (inv_view_pending _ HI _ _ _ _ H) as [_ Ha0].
  pose proof (inv_signal_inj _ HI _ _ _ _ _ Ha Ha0) as <-.
  eapply Hnone; eassumption.
Qed.

Lemma exec_keeps_waiting (ls : list Label) :
  forall (w w' : World) (profileKey : Key) (signal : SignalId),
    Inv w -> abandoned profileKey signal w -> exec ls w = Some w' ->
    abandoned profileKey signal w'
    ∧ (forall tid, tasks w !! tid = Some (ViewAwaitSignal profileKey signal) ->
                   tasks w' !! tid = Some (ViewAwaitSignal profileKey signal))
    ∧ (forall tid result, tasks w !! tid = Some (Returned result) ->
                          tasks w' !! tid = Some (Returned result)).
Proof.
  induction ls as [|l ls IH]; intros w w' profileKey signal HI Hab Hex; cbn in Hex.
  - injection Hex as <-. auto.
  - destruct (step l w) as [w1|] eqn:Hstep; [|discriminate].
    apply step_Step in Hstep.
    destruct (IH w1 w' profileKey signal) as (Hab' & Hwait & Hret).
    { eapply Inv_Step; eassumption. }
    { eapply Step_keeps_abandoned; eassumption. }
    { exact Hex. }
    split; [exact Hab'|]. split.
    + intros tid Htask. apply Hwait. eapply Step_keeps_waiting; eassumption.
    + intros tid result Htask. apply Hret. eapply Step_keeps_returned; eassumption.
Qed.


(** C1 does not hold of the code.  When the store's view reports
    "not found", [view] returns [undefined] to the caller that issued the
    store call and delivers no profile, but lines 100-104 are skipped as a
    whole: the awaiting operation is not removed and its signal is never
    fired.  So in every continuation the entry is still registered, every
    call that was waiting for it is still suspended in [signal.wait()], and
    a later [view] of the key joins them. *)
Theorem view_not_found_leaves_waiters_blocked (w w' : World) (now now' : Q) (tid : nat)
    (profileKey : Key) (signal : SignalId) (t : Q) (ls : list Label) :
  reachable w ->
  tasks w !! tid = Some (ViewAwaitStore profileKey signal t) ->
  exec (StoreReply now tid None :: ls) w = Some w' ->
  (∃ w1, step (StoreReply now tid None) w = Some w1
       ∧ count is_fire (trace w1) = count is_fire (trace w)
       ∧ awaitingOperations w1 = awaitingOperations w)
  ∧ tasks w' !! tid = Some (Returned (RProfile None))
  ∧ awaitingOperations w' !! profileKey = Some (OpView, signal)
  ∧ (forall tid', tasks w !! tid' = Some (ViewAwaitSignal profileKey signal) ->
                  tasks w' !! tid' = Some (ViewAwaitSignal profileKey signal))
  ∧ (loadedProfiles w' !! profileKey = None ->
     ∃ w'', step (Invoke now' (View profileKey)) w' = Some w''
          ∧ tasks w'' = tasks w' ++ [ViewAwaitSignal profileKey signal]
          ∧ trace w'' = trace w').
Proof.
  intros Hreach Htask Hex. pose proof (Inv_reachable _ Hreach) as HI.
  cbn [exec] in Hex. rewrite (step_view_not_found _ _ _ _ _ _ Htask) in Hex |- *.
  cbv beta iota zeta in Hex |- *.
  match type of Hex with exec _ ?w1' = _ => set (w1 := w1') in * end.
  assert (HI1 : Inv w1).
  { eapply Inv_Step; [exact HI|]. apply step_Step.
    apply (step_view_not_found w now _ _ _ _ Htask). }
  destruct (inv_view_pending _ HI _ _ _ _ Htask) as [Hv Ha].
  assert (Hab : abandoned profileKey signal w1).
  { split; [exact Ha|]. split; [exact Hv|].
    intros tid' s' t' Htask'. cbn in Htask'.
    apply list_lookup_insert_Some in Htask' as [(_ & Hbad & _)|[Hne Htask']];
      [discriminate Hbad|].
    apply Hne. eapply (inv_view_unique _ HI); eassumption. }
  destruct (exec_keeps_waiting ls w1 w' profileKey signal HI1 Hab Hex)
    as ((Ha' & Hv' & _) & Hwait & Hret).
  split.
  { eexists. split; [reflexivity|]. split; [|reflexivity].
    change (count is_fire (trace w ++
              [report (now - t) (ViewedIn profileKey (floor2 (now - t)))]) =
            count is_fire (trace w)).
    rewrite count_other; [reflexivity|].
    unfold report. destruct (Qgtb _ _); reflexivity. }
  split.
  { apply Hret. cbn. apply list_lookup_insert_eq. eapply lookup_lt_Some, Htask. }
  split; [exact Ha'|].
  split.
  { intros tid' Htask'. apply Hwait. cbn.
    rewrite list_lookup_insert_ne; [exact Htask'|]. congruence. }
  intros Hl. rewrite (step_view_pending _ _ _ _ _ Hl Hv' Ha').
  eexists. split; [reflexivity|]. split; reflexivity.
Qed.

(** The scenario of the specification: two calls of [view("P3")], and the
    store has no record for "P3".  The first call returns [undefined]; the
    second stays suspended, also after the key has been loaded and
    unloaded, and a third call is suspended as well. *)
Lemma view_not_found_leaves_waiters_blocked_witness :
  reachable P3_two_views
  ∧ tasks P3_two_views = [ViewAwaitStore "P3" 0 0; ViewAwaitSignal "P3" 0]
  ∧ ∃ w', exec [StoreReply 2 0 None; Invoke 3 (SaveProfile "P3")] P3_two_views = Some w'
        ∧ tasks w' !! 0 = Some (Returned (RProfile None))
        ∧ tasks w' !! 1 = Some (ViewAwaitSignal "P3" 0)
        ∧ awaitingOperations w' !! "P3" = Some (OpView, 0)
        ∧ ∃ w'', step (Invoke 4 (View "P3")) w' = Some w''
               ∧ tasks w'' = tasks w' ++ [ViewAwaitSignal "P3" 0]
               ∧ trace w'' = trace w'.
Proof.
  assert (Hreach : reachable P3_two_views).
  { exists "PlayerData", ∅, [Invoke 0 (View "P3"); Invoke 1 (View "P3")].
    vm_compute. reflexivity. }
  split; [exact Hreach|]. split; [reflexivity|].
  destruct (exec [StoreReply 2 0 None; Invoke 3 (SaveProfile "P3")] P3_two_views)
    as [w'|] eqn:Hex; [|vm_compute in Hex; discriminate Hex].
  exists w'. split; [reflexivity|].
  destruct (view_not_found_leaves_waiters_blocked P3_two_views w' 2 4 0 "P3" 0 0
              [Invoke 3 (SaveProfile "P3")] Hreach eq_refl Hex)
    as (_ & Hret & Ha & Hwait & Hview).
  split; [exact Hret|]. split; [exact (Hwait 1 eq_refl)|]. split; [exact Ha|].
  apply Hview. vm_compute in Hex. injection Hex as <-. reflexivity.
Defined.

(** * Further properties of the class *)

(** ** [save] *)

(** X1. [save(profileKey)] asks the store to persist the loaded profile, once,
    and returns [true] if the key is loaded; otherwise it returns [false] and
    does nothing.  In neither case does it change a map or a profile. *)
Theorem save_result (w : World) (now : Q) (profileKey : Key) :
  ∃ w', step (Invoke now (SaveProfile profileKey)) w = Some w'
      ∧ loadedProfiles w' = loadedProfiles w
      ∧ viewedProfiles w' = viewedProfiles w
      ∧ awaitingOperations w' = awaitingOperations w
      ∧ profiles w' = profiles w
      ∧ match loadedProfiles w !! profileKey with
        | Some profile =>
            trace w' = trace w ++ [Save profile]
            ∧ tasks w' = tasks w ++ [Returned (RBool true)]
        | None =>
            trace w' = trace w
            ∧ tasks w' = tasks w ++ [Returned (RBool false)]
        end.
Proof.
  destruct (loadedProfiles w !! profileKey) as [profile|] eqn:H.
  - rewrite (step_save_loaded _ _ _ _ H). eexists. split; [reflexivity|]. cbn. auto 10.
  - rewrite (step_save_absent _ _ _ H). eexists. split; [reflexivity|]. cbn. auto 10.
Qed.

(** X2. [unload] is idempotent: whatever the state, a second [unload] of the
    key right after the first returns [false] and releases nothing, and a
    [save] of the key then returns [false] and saves nothing. *)
Theorem unload_twice (w : World) (now1 now2 now3 : Q) (profileKey : Key) :
  ∃ w1 w2 w3,
    step (Invoke now1 (Unload profileKey)) w = Some w1
    ∧ step (Invoke now2 (Unload profileKey)) w1 = Some w2
    ∧ tasks w2 = tasks w1 ++ [Returned (RBool false)]
    ∧ trace w2 = trace w1 ++ [Warn (CouldNotUnload profileKey)]
    ∧ step (Invoke now3 (SaveProfile profileKey)) w2 = Some w3
    ∧ tasks w3 = tasks w2 ++ [Returned (RBool false)]
    ∧ trace w3 = trace w2.
Proof.
  assert (H1 : ∃ w1, step (Invoke now1 (Unload profileKey)) w = Some w1
                   ∧ loadedProfiles w1 !! profileKey = None).
  { destruct (loadedProfiles w !! profileKey) as [profile|] eqn:H.
    - rewrite (step_unload_loaded _ _ _ _ H). eexists. split; [reflexivity|].
      apply lookup_delete_eq.
    - rewrite (step_unload_absent _ _ _ H). eexists. split; [reflexivity|].
      apply lookup_delete_eq. }
  destruct H1 as (w1 & Hstep1 & Hnone1).
  exists w1. rewrite Hstep1, (step_unload_absent _ _ _ Hnone1).
  eexists. eexists. split; [reflexivity|]. split; [reflexivity|].
  split; [reflexivity|]. split; [reflexivity|].
  erewrite step_save_absent by (cbn; rewrite lookup_delete_eq; reflexivity).
  split; [reflexivity|]. split; reflexivity.
Qed.

(** ** A view that is found *)

(** X3. When the store call of [view(profileKey)] is answered with a profile:
    the call that made it and every call that was waiting for the key return
    the same new profile object; the awaiting operation is removed and the
    profile is cached in [viewedProfiles]; the signal is fired once; the
    profile carries the stored payload as it is ([view] does not reconcile);
    and calls waiting for other keys keep waiting. *)
Theorem view_found_resumes_waiters (w : World) (now : Q) (tid : nat)
    (profileKey : Key) (signal : SignalId) (t : Q) (data : Payload) :
  reachable w ->
  tasks w !! tid = Some (ViewAwaitStore profileKey signal t) ->
  ∃ w', let profile := length (profiles w) in
    step (StoreReply now tid (Some data)) w = Some w'
    ∧ tasks w' !! tid = Some (Returned (RProfile (Some profile)))
    ∧ (forall tid' s, tasks w !! tid' = Some (ViewAwaitSignal profileKey s) ->
                      tasks w' !! tid' = Some (Returned (RProfile (Some profile))))
    ∧ (forall tid' k s, k ≠ profileKey ->
                        tasks w !! tid' = Some (ViewAwaitSignal k s) ->
                        tasks w' !! tid' = Some (ViewAwaitSignal k s))
    ∧ awaitingOperations w' !! profileKey = None
    ∧ viewedProfiles w' !! profileKey = Some profile
    ∧ profiles w' !! profile = Some data
    ∧ count is_fire (trace w') = count is_fire (trace w) + 1
    ∧ count is_reconcile (trace w') = count is_reconcile (trace w).
Proof.
  intros Hreach Htask. pose proof (Inv_reachable _ Hreach) as HI.
  destruct (inv_view_pending _ HI _ _ _ _ Htask) as [Hv Ha].
  pose proof (lookup_lt_Some _ _ _ Htask) as Hlt.
  rewrite (step_view_found _ _ _ _ _ _ _ Htask). cbv zeta.
  eexists. split; [reflexivity|]. simpl_world.
  split. { apply list_lookup_insert_eq. rewrite length_map. exact Hlt. }
  split.
  { intros tid' s Hwait.
    destruct (inv_waiter _ HI _ _ _ Hwait) as [ty Ha'].
    rewrite Ha in Ha'. injection Ha' as _ <-.
    rewrite list_lookup_insert_ne by congruence.
    change (map ?f ?ts) with (f <$> ts). rewrite list_lookup_fmap, Hwait. cbn.
    rewrite Nat.eqb_refl. reflexivity. }
  split.
  { intros tid' k s Hk Hwait.
    destruct (inv_waiter _ HI _ _ _ Hwait) as [ty Ha'].
    rewrite list_lookup_insert_ne by congruence.
    change (map ?f ?ts) with (f <$> ts). rewrite list_lookup_fmap, Hwait. cbn.
    destruct (Nat.eqb s signal) eqn:E; [|reflexivity].
    apply Nat.eqb_eq in E as ->. exfalso. apply Hk.
    eapply (inv_signal_inj _ HI); eassumption. }
  split; [apply lookup_delete_eq|].
  split; [apply lookup_insert_eq|].
  split; [apply list_lookup_middle; reflexivity|].
  split; count_step; lia.
Qed.

(** Two calls of [view("P3")] and one of [view("P4")] wait; the store finds
    "P3". *)
Lemma view_found_resumes_waiters_witness :
  reachable P3_P4_views
  ∧ tasks P3_P4_views =
      [ViewAwaitStore "P3" 0 0; ViewAwaitSignal "P3" 0;
       ViewAwaitStore "P4" 1 2; ViewAwaitSignal "P4" 1]
  ∧ ∃ w', step (StoreReply 4 0 (Some P1_stored)) P3_P4_views = Some w'
        ∧ tasks w' =
            [Returned (RProfile (Some 0)); Returned (RProfile (Some 0));
             ViewAwaitStore "P4" 1 2; ViewAwaitSignal "P4" 1]
        ∧ awaitingOperations w' !! "P3" = None
        ∧ viewedProfiles w' !! "P3" = Some 0.
Proof.
  assert (Hreach : reachable P3_P4_views).
  { exists "PlayerData", ∅,
      [Invoke 0 (View "P3"); Invoke 1 (View "P3"); Invoke 2 (View "P4"); Invoke 3 (View "P4")].
    vm_compute. reflexivity. }
  split; [exact Hreach|]. split; [reflexivity|].
  destruct (view_found_resumes_waiters P3_P4_views 4 0 "P3" 0 0 P1_stored Hreach eq_refl)
    as (w' & Hstep & _ & _ & _ & Ha & Hv & _).
  exists w'. split; [exact Hstep|].
  split; [|split; assumption].
  vm_compute in Hstep. injection Hstep as <-. reflexivity.
Defined.



(** ** What [load] returns *)

(** X5. Whenever a call of [load(profileKey)] returns, in whatever step, it
    returns a profile, never [undefined], and that profile is the one that
    [loadedProfiles] holds for the key at that moment. *)
Theorem load_returns_the_loaded_profile (l : Label) (w w' : World) (profileKey : Key)
    (result : Result) :
  step l w = Some w' ->
  step_method l w = Some MLoad ->
  step_key l w = Some profileKey ->
  tasks w' !! step_task l w = Some (Returned result) ->
  ∃ profile, result = RProfile (Some profile)
           ∧ loadedProfiles w' !! profileKey = Some profile.
Proof.
  intros Hstep Hmethod Hkey Hret. apply step_Step in Hstep.
  destruct Hstep; cbn in Hmethod, Hkey, Hret;
    repeat match goal with
           | H : tasks _ !! _ = Some _ |- _ =>
               rewrite H in Hmethod, Hkey; cbn in Hmethod, Hkey;
               pose proof (lookup_lt_Some _ _ _ H); revert H
           end; intros;
    try discriminate Hmethod; injection Hkey as ->; simpl_world;
    rewrite ?lookup_new_task, ?list_lookup_insert_eq in Hret by assumption;
    try discriminate Hret; injection Hret as <-;
    eexists; (split; [reflexivity|]); rewrite ?lookup_insert_eq; try assumption;
    reflexivity.
Qed.

Lemma load_returns_the_loaded_profile_witness :
  let w := default (init "PlayerData" P1_template)
             (exec [Invoke 0 (Load "P1" None)] (init "PlayerData" P1_template)) in
  ∃ w', step (StoreReply 1 0 (Some P1_stored)) w = Some w'
      ∧ step_method (StoreReply 1 0 (Some P1_stored)) w = Some MLoad
      ∧ step_key (StoreReply 1 0 (Some P1_stored)) w = Some "P1"
      ∧ tasks w' !! 0 = Some (Returned (RProfile (Some 0)))
      ∧ loadedProfiles w' !! "P1" = Some 0.
Proof.
  intros w.
  destruct (step (StoreReply 1 0 (Some P1_stored)) w) as [w'|] eqn:Hstep;
    [|vm_compute in Hstep; discriminate Hstep].
  exists w'. split; [reflexivity|]. split; [reflexivity|]. split; [reflexivity|].
  assert (Hret : tasks w' !! 0 = Some (Returned (RProfile (Some 0)))).
  { vm_compute in Hstep. injection Hstep as <-. reflexivity. }
  split; [exact Hret|].
  destruct (load_returns_the_loaded_profile (StoreReply 1 0 (Some P1_stored)) w w' "P1"
              (RProfile (Some 0)) Hstep eq_refl eq_refl Hret) as (p & Hp & Hl).
  injection Hp as <-. exact Hl.
Defined.

(** ** Overlapping calls of [load] *)

Lemma exec_cons (l : Label) (ls : list Label) (w w1 : World) :
  step l w = Some w1 -> exec (l :: ls) w = exec ls w1.
Proof. intros H. cbn. rewrite H. reflexivity. Qed.

Lemma insert_last_task (ts : list Task) (task task' : Task) :
  <[length ts := task']> (ts ++ [task]) = ts ++ [task'].
Proof. rewrite insert_app_r_alt, Nat.sub_diag by lia. reflexivity. Qed.

Lemma insert_last_but_one (ts : list Task) (t1 t2 task' : Task) :
  <[length ts := task']> (ts ++ [t1; t2]) = ts ++ [task'; t2].
Proof. rewrite insert_app_r_alt, Nat.sub_diag by lia. reflexivity. Qed.

Lemma insert_last_of_two (ts : list Task) (t1 t2 task' : Task) :
  <[S (length ts) := task']> (ts ++ [t1; t2]) = ts ++ [t1; task'].
Proof.
  rewrite insert_app_r_alt by lia.
  replace (S (length ts) - length ts) with 1 by lia. reflexivity.
Qed.

Lemma lookup_last_of_two (ts : list Task) (t1 t2 : Task) :
  (ts ++ [t1; t2]) !! S (length ts) = Some t2.
Proof.
  rewrite lookup_app_r by lia.
  replace (S (length ts) - length ts) with 1 by lia. reflexivity.
Qed.

Lemma lookup_last_but_one (ts : list Task) (t1 t2 : Task) :
  (ts ++ [t1; t2]) !! length ts = Some t1.
Proof. apply list_lookup_middle. reflexivity. Qed.

(** X6. [load] does not de-duplicate: two calls of [load(profileKey)] that
    overlap on a key that is not loaded both call the store.  If both store
    calls succeed, the callers get two different profile objects, and
    [loadedProfiles] keeps the one that arrived last; a following [unload]
    releases that one only. *)
Theorem overlapping_loads_both_call_the_store (w : World) (n1 n2 n3 n4 n5 : Q)
    (profileKey : Key) (r1 r2 : option Q) (d1 d2 : Payload) :
  loadedProfiles w !! profileKey = None ->
  let a := length (tasks w) in
  let p := length (profiles w) in
  ∃ w' w'',
    exec [Invoke n1 (Load profileKey r1); Invoke n2 (Load profileKey r2);
          StoreReply n3 a (Some d1); StoreReply n4 (S a) (Some d2)] w = Some w'
    ∧ tasks w' = tasks w ++ [Returned (RProfile (Some p)); Returned (RProfile (Some (S p)))]
    ∧ loadedProfiles w' !! profileKey = Some (S p)
    ∧ count (is_store_load profileKey) (trace w') =
        count (is_store_load profileKey) (trace w) + 2
    ∧ step (Invoke n5 (Unload profileKey)) w' = Some w''
    ∧ trace w'' = trace w' ++ [Release (S p); Print (Unloaded profileKey)].
Proof.
  intros Hnone a p.
  rewrite (exec_cons _ _ _ _ (step_load_store w n1 profileKey r1 Hnone)).
  match goal with |- context [exec _ ?x] => set (wa := x) end.
  rewrite (exec_cons _ _ _ _ (step_load_store wa n2 profileKey r2 Hnone)).
  match goal with |- context [exec _ ?x] => set (wb := x) end.
  assert (Htb : tasks wb = tasks w ++ [LoadAwaitStore profileKey r1 n1;
                                       LoadAwaitStore profileKey r2 n2]).
  { subst wb wa. simpl_world. rewrite <- app_assoc. reflexivity. }
  assert (Hta : tasks wb !! a = Some (LoadAwaitStore profileKey r1 n1))
    by (rewrite Htb; apply lookup_last_but_one).
  rewrite (exec_cons _ _ _ _ (step_load_succeeded wb n3 profileKey a r1 n1 d1 Hta)).
  cbv zeta.
  match goal with |- context [exec _ ?x] => set (wc := x) end.
  assert (Htc : tasks wc = tasks w ++ [Returned (RProfile (Some p));
                                       LoadAwaitStore profileKey r2 n2]).
  { subst wc. simpl_world. rewrite Htb. apply insert_last_but_one. }
  assert (Hpc : length (profiles wc) = S p).
  { subst wc wb wa. simpl_world. rewrite length_alter, length_app. cbn. subst p. lia. }
  assert (Htc' : tasks wc !! S a = Some (LoadAwaitStore profileKey r2 n2))
    by (rewrite Htc; apply lookup_last_of_two).
  rewrite (exec_cons _ _ _ _ (step_load_succeeded wc n4 profileKey (S a) r2 n2 d2 Htc')).
  cbv zeta. rewrite Hpc.
  eexists. eexists. split; [reflexivity|]. simpl_world.
  assert (Hl : <[profileKey:=S p]> (loadedProfiles wc) !! profileKey = Some (S p))
    by apply lookup_insert_eq.
  split. { rewrite Htc. apply insert_last_of_two. }
  split; [exact Hl|].
  split.
  { subst wc wb wa. simpl_world.
    count_step; rewrite ?bool_decide_eq_true_2 by reflexivity; cbn; lia. }
  erewrite step_unload_loaded by exact Hl.
  split; [reflexivity|]. simpl_world.
  rewrite <- !app_assoc. reflexivity.
Qed.

Lemma overlapping_loads_both_call_the_store_witness :
  loadedProfiles (init "PlayerData" ∅) !! "P2" = None
  ∧ ∃ w',
      exec [Invoke 0 (Load "P2" None); Invoke 1 (Load "P2" None);
            StoreReply 2 0 (Some ∅); StoreReply 3 1 (Some ∅)] (init "PlayerData" ∅) = Some w'
      ∧ tasks w' = [Returned (RProfile (Some 0)); Returned (RProfile (Some 1))]
      ∧ loadedProfiles w' !! "P2" = Some 1.
Proof.
  split; [reflexivity|].
  destruct (overlapping_loads_both_call_the_store (init "PlayerData" ∅) 0 1 2 3 4 "P2"
              None None ∅ ∅ eq_refl) as (w' & _ & Hex & Hts & Hl & _).
  exists w'. split; [exact Hex|]. split; assumption.
Defined.

(** X7. A call of [load] that is asleep after a failure, and wakes up when
    another call has loaded the key meanwhile, returns the profile of that
    other call and makes no further store call. *)
Theorem sleeping_load_returns_what_was_loaded_meanwhile (w : World) (n1 n2 n3 n4 n5 : Q)
    (profileKey : Key) (r1 r2 : option Q) (data : Payload) :
  loadedProfiles w !! profileKey = None ->
  let a := length (tasks w) in
  let p := length (profiles w) in
  ∃ w1 w2,
    exec [Invoke n1 (Load profileKey r1); StoreReply n2 a None;
          Invoke n3 (Load profileKey r2); StoreReply n4 (S a) (Some data)] w = Some w1
    ∧ tasks w1 = tasks w ++ [LoadSleep profileKey (next_retryTime r1);
                             Returned (RProfile (Some p))]
    ∧ step (Wake n5 a) w1 = Some w2
    ∧ tasks w2 = tasks w ++ [Returned (RProfile (Some p)); Returned (RProfile (Some p))]
    ∧ trace w2 = trace w1
    ∧ count (is_store_load profileKey) (trace w2) =
        count (is_store_load profileKey) (trace w) + 2.
Proof.
  intros Hnone a p.
  rewrite (exec_cons _ _ _ _ (step_load_store w n1 profileKey r1 Hnone)).
  match goal with |- context [exec _ ?x] => set (wa := x) end.
  assert (Hta : tasks wa !! a = Some (LoadAwaitStore profileKey r1 n1))
    by apply lookup_new_task.
  rewrite (exec_cons _ _ _ _ (step_load_failed wa n2 profileKey a r1 n1 Hta)).
  cbv zeta.
  match goal with |- context [exec _ ?x] => set (wb := x) end.
  rewrite (exec_cons _ _ _ _ (step_load_store wb n3 profileKey r2 Hnone)).
  match goal with |- context [exec _ ?x] => set (wc := x) end.
  assert (Htc : tasks wc = tasks w ++ [LoadSleep profileKey (next_retryTime r1);
                                       LoadAwaitStore profileKey r2 n3]).
  { subst wc wb wa a. simpl_world. rewrite insert_last_task, <- app_assoc. reflexivity. }
  assert (Htc' : tasks wc !! S a = Some (LoadAwaitStore profileKey r2 n3))
    by (rewrite Htc; apply lookup_last_of_two).
  rewrite (exec_cons _ _ _ _ (step_load_succeeded wc n4 profileKey (S a) r2 n3 data Htc')).
  cbv zeta.
  match goal with |- context [exec _ ?x] => set (wd := x) end.
  assert (Htd : tasks wd = tasks w ++ [LoadSleep profileKey (next_retryTime r1);
                                       Returned (RProfile (Some p))]).
  { subst wd. simpl_world. rewrite Htc. apply insert_last_of_two. }
  exists wd. eexists. split; [reflexivity|]. split; [exact Htd|].
  erewrite step_load_wake_cached; cycle 1.
  { rewrite Htd. apply lookup_last_but_one. }
  { subst wd. simpl_world. apply lookup_insert_eq. }
  split; [reflexivity|]. simpl_world.
  split. { rewrite Htd. apply insert_last_but_one. }
  split; [reflexivity|].
  subst wd wc wb wa. simpl_world.
  count_step; rewrite ?bool_decide_eq_true_2 by reflexivity; cbn; lia.
Qed.

Lemma sleeping_load_returns_what_was_loaded_meanwhile_witness :
  loadedProfiles (init "PlayerData" ∅) !! "P2" = None
  ∧ ∃ w1 w2,
      exec [Invoke 0 (Load "P2" None); StoreReply 1 0 None;
            Invoke 2 (Load "P2" None); StoreReply 3 1 (Some ∅)] (init "PlayerData" ∅)
        = Some w1
      ∧ step (Wake 4 0) w1 = Some w2
      ∧ tasks w2 = [Returned (RProfile (Some 0)); Returned (RProfile (Some 0))]
      ∧ trace w2 = trace w1.
Proof.
  split; [reflexivity|].
  destruct (sleeping_load_returns_what_was_loaded_meanwhile (init "PlayerData" ∅)
              0 1 2 3 4 "P2" None None ∅ eq_refl)
    as (w1 & w2 & Hex & _ & Hstep & Hts & Htr & _).
  exists w1, w2. auto.
Defined.

(** ** The diagnostics of [load] *)

Lemma failures_last_attempt (times : list (Q * Q)) :
  forall (w : World) (tid : nat) (profileKey : Key) (retryTime : option Q) (t : Q),
    tasks w !! tid = Some (LoadAwaitStore profileKey retryTime t) ->
    loadedProfiles w !! profileKey = None ->
    ∃ w' retryTime',
      exec (failures tid times) w = Some w'
      ∧ tasks w' !! tid =
          Some (LoadAwaitStore profileKey retryTime' (last_attempt t times))
      ∧ profiles w' = profiles w.
Proof.
  induction times as [|[t_reply t_wake] times IH]; intros w tid profileKey retryTime t Htask Hnone.
  - exists w, retryTime. auto.
  - pose proof (lookup_lt_Some _ _ _ Htask) as Hlt.
    cbn [failures last_attempt].
    rewrite (exec_cons _ _ _ _ (step_load_failed w t_reply profileKey tid retryTime t Htask)).
    cbv zeta.
    match goal with |- context [exec _ ?x] => set (wa := x) end.
    assert (Hta : tasks wa !! tid = Some (LoadSleep profileKey (next_retryTime retryTime)))
      by (apply list_lookup_insert_eq, Hlt).
    rewrite (exec_cons _ _ _ _ (step_load_wake wa t_wake profileKey tid _ Hta Hnone)).
    match goal with |- context [exec _ ?x] => set (wb := x) end.
    destruct (IH wb tid profileKey (Some (next_retryTime retryTime)) t_wake)
      as (w' & rt' & Hex & Htask' & Hp).
    { subst wb wa. simpl_world. rewrite list_insert_insert_eq.
      apply list_lookup_insert_eq, Hlt. }
    { exact Hnone. }
    exists w', rt'. split; [exact Hex|]. split; [exact Htask'|]. rewrite Hp. reflexivity.
Qed.

(** X8. The time that [load] reports, and compares with 5 to choose between
    [warn] and [print], is measured from the beginning of the last attempt:
    after failures, the earlier attempts and the sleeps are not counted. *)
Theorem load_reports_the_last_attempt (w : World) (now t_ok : Q) (profileKey : Key)
    (retryTime : option Q) (times : list (Q * Q)) (data : Payload) :
  loadedProfiles w !! profileKey = None ->
  let tid := length (tasks w) in
  let delta := (t_ok - last_attempt now times)%Q in
  let message := LoadedIn profileKey (floor2 delta) in
  ∃ w1 w2,
    exec (Invoke now (Load profileKey retryTime) :: failures tid times) w = Some w1
    ∧ step (StoreReply t_ok tid (Some data)) w1 = Some w2
    ∧ trace w2 = trace w1 ++
        [Reconcile (length (profiles w));
         if Qgtb delta 5 then Warn message else Print message]
    ∧ (In (Warn message) [if Qgtb delta 5 then Warn message else Print message]
       <-> (5 < delta)%Q).
Proof.
  intros Hnone tid delta message.
  rewrite (exec_cons _ _ _ _ (step_load_store w now profileKey retryTime Hnone)).
  match goal with |- context [exec _ ?x] => set (wa := x) end.
  destruct (failures_last_attempt times wa tid profileKey retryTime now)
    as (w1 & rt' & Hex & Htask & Hp).
  { apply lookup_new_task. }
  { exact Hnone. }
  exists w1. eexists. split; [exact Hex|].
  rewrite (step_load_succeeded _ _ _ _ _ _ _ Htask). cbv zeta.
  split; [reflexivity|]. simpl_world. rewrite Hp.
  split; [reflexivity|].
  fold delta. fold message. destruct (Qgtb delta 5) eqn:Hgt.
  - apply Qgtb_lt in Hgt. split; [auto|]. intros _. left. reflexivity.
  - split.
    + intros [H|[]]. discriminate H.
    + intros H. apply Qgtb_lt in H. congruence.
Qed.

(** The store fails once; the call takes 7 seconds in all, but the last
    attempt only 1: the message is printed, not warned. *)
Lemma load_reports_the_last_attempt_witness :
  loadedProfiles (init "PlayerData" ∅) !! "P2" = None
  ∧ ∃ w1 w2,
      exec (Invoke 0 (Load "P2" None) :: failures 0 [(3, 6)]%Q) (init "PlayerData" ∅)
        = Some w1
      ∧ step (StoreReply 7 0 (Some ∅)) w1 = Some w2
      ∧ trace w2 = trace w1 ++ [Reconcile 0; Print (LoadedIn "P2" (100 # 100))].
Proof.
  split; [reflexivity|].
  destruct (load_reports_the_last_attempt (init "PlayerData" ∅) 0 7 "P2" None
              [(3, 6)]%Q ∅ eq_refl) as (w1 & w2 & Hex & Hstep & Htr & _).
  exists w1, w2. split; [exact Hex|]. split; [exact Hstep|]. exact Htr.
Defined.


(** ** The backoff of [load], summed up *)




Lemma Qsum_retry_delays (n : nat) :
  forall retryTime : option Q,
    (Qsum (retry_delays n retryTime) == next_retryTime retryTime * (2 ^ Z.of_nat n - 1))%Q.
Proof.
  induction n as [|n IH]; intros retryTime.
  - change (2 ^ Z.of_nat 0)%Q with 1%Q. cbn. ring.
  - cbn [retry_delays Qsum fold_right]. fold (Qsum (retry_delays n (Some (next_retryTime retryTime)))).
    rewrite IH. cbn [next_retryTime].
    rewrite Nat2Z.inj_succ, <- Z.add_1_r, Qpower_plus by discriminate.
    rewrite Qpower_1_r. ring.
Qed.

(** X11. After [N] failures in a row, a [load] without a delay argument has
    slept for [0.1 * (2^N - 1)] seconds in all. *)
Theorem load_total_backoff (w : World) (now : Q) (profileKey : Key) (times : list (Q * Q)) :
  loadedProfiles w !! profileKey = None ->
  let N := length times in
  ∃ w1 slept,
    exec (Invoke now (Load profileKey None) :: failures (length (tasks w)) times) w = Some w1
    ∧ waits (trace w1) = waits (trace w) ++ slept
    ∧ length slept = N
    ∧ (Qsum slept == 0.1 * (2 ^ Z.of_nat N - 1))%Q.
Proof.
  intros Hnone N.
  rewrite (exec_cons _ _ _ _ (step_load_store w now profileKey None Hnone)).
  match goal with |- context [exec _ ?x] => set (wa := x) end.
  destruct (failures_run times wa (length (tasks w)) profileKey None now)
    as (w1 & rt' & t' & Hex & Htr & _).
  { apply lookup_new_task. }
  { exact Hnone. }
  exists w1, (retry_delays N None). split; [exact Hex|].
  split.
  { rewrite Htr. subst wa. simpl_world.
    rewrite !waits_app, waits_retries. cbn. rewrite app_nil_r. reflexivity. }
  split; [apply retry_delays_length|].
  apply (Qsum_retry_delays N None).
Qed.

(** Three failures: 0.1 + 0.2 + 0.4 = 0.7 seconds. *)
Lemma load_total_backoff_witness :
  loadedProfiles (init "PlayerData" ∅) !! "P2" = None
  ∧ ∃ w1 slept,
      exec (Invoke 0 (Load "P2" None) :: failures 0 [(1, 2); (3, 4); (5, 6)]%Q)
           (init "PlayerData" ∅) = Some w1
      ∧ waits (trace w1) = slept
      ∧ (Qsum slept == 0.7)%Q.
Proof.
  split; [reflexivity|].
  destruct (load_total_backoff (init "PlayerData" ∅) 0 "P2" [(1, 2); (3, 4); (5, 6)]%Q eq_refl)
    as (w1 & slept & Hex & Hw & _ & Hsum).
  exists w1, slept. split; [exact Hex|]. split; [exact Hw|].
  rewrite Hsum. reflexivity.
Defined.

(** ** What the manager does with the profiles it holds *)

Lemma count_zero_not_in (p : ProfileRef) (tr : list Event) :
  ¬ In (Release p) tr -> count (is_release_of p) tr = 0.
Proof.
  induction tr as [|e tr IH]; intros Hnotin; [reflexivity|].
  unfold count in *. cbn.
  destruct (is_release_of p e) eqn:He.
  - exfalso. apply Hnotin. left. destruct e; try discriminate He.
    cbn in He. apply Nat.eqb_eq in He as ->. reflexivity.
  - apply IH. intros Hin. apply Hnotin. right. exact Hin.
Qed.

Lemma Owned_init (name : string) (template : Payload) : Owned (init name template).
Proof.
  split; cbn; intros; try discriminate; try lia; try tauto.
Qed.

(** Take apart what is known about the events of the new trace. *)
Ltac old_trace :=
  unfold report in *;
  repeat match goal with
         | H : context [Qgtb ?a ?b] |- _ => destruct (Qgtb a b)
         | |- context [Qgtb ?a ?b] => destruct (Qgtb a b)
         end;
  repeat match goal with
         | H : In _ (_ ++ _) |- _ => apply in_app_iff in H as [H|H]
         | H : In _ (_ :: _) |- _ => destruct H as [H|H]
         | H : In _ [] |- _ => destruct H
         | H : _ ∨ _ |- _ => destruct H as [H|H]
         end;
  simplify_eq.

(** Use the invariant of the old state at everything known about it. *)
Ltac use_owned Hlk Hvk Hek Hnr Hvu :=
  repeat match goal with
         | H : loadedProfiles _ !! _ = Some _ |- _ =>
             pose proof (Hlk _ _ H); pose proof (Hnr _ _ H); revert H
         | H : viewedProfiles _ !! _ = Some _ |- _ =>
             pose proof (Hvk _ _ H); pose proof (Hvu _ _ H) as [? ?]; revert H
         | H : In (Release _) (trace _) |- _ =>
             pose proof (Hek _ (or_introl H)); revert H
         | H : In (Save _) (trace _) |- _ =>
             pose proof (Hek _ (or_intror H)); revert H
         end; intros.

Lemma Owned_Step (l : Label) (w w' : World) : Owned w -> Step l w w' -> Owned w'.
Proof.
  intros [Hlk Hvk Hek Hinj Hapart Hnr Hvu Honce Hvo] Hstep.
  destruct Hstep; split; simpl_world; try assumption.
  all: rewrite ?length_alter, ?length_app; cbn [length].
  all: intros; repeat split; try (intros ?); old_trace; old_state.
  all: use_owned Hlk Hvk Hek Hnr Hvu.
  all: try lia; try congruence; try tauto; eauto.
  all: pose proof (Honce p) as Hp; unfold count in Hp |- *;
    rewrite ?List.filter_app, ?length_app; cbn; try lia.
  destruct (Nat.eqb profile p) eqn:E; cbn; [|lia].
  apply Nat.eqb_eq in E as ->.
  pose proof (count_zero_not_in _ _ (Hnr _ _ H)) as Hzero. unfold count in Hzero. lia.
Qed.

Lemma Owned_exec (ls : list Label) :
  forall w w', Owned w -> exec ls w = Some w' -> Owned w'.
Proof.
  induction ls as [|l ls IH]; intros w w' HO Hex; cbn in Hex.
  - injection Hex as <-. exact HO.
  - destruct (step l w) as [w1|] eqn:Hstep; [|discriminate].
    eapply IH; [|exact Hex]. eapply Owned_Step; [exact HO|]. apply step_Step, Hstep.
Qed.

Lemma Owned_reachable (w : World) : reachable w -> Owned w.
Proof. intros (name & template & ls & Hex). eapply Owned_exec; [apply Owned_init | exact Hex]. Qed.

(** The events of a step; a profile that is saved or released is loaded. *)
Lemma Step_events (l : Label) (w w' : World) :
  Step l w w' ->
  ∃ evs, trace w' = trace w ++ evs
       ∧ forall p, In (Save p) evs ∨ In (Release p) evs ->
                   ∃ k, loadedProfiles w !! k = Some p.
Proof.
  destruct 1; simpl_world;
    try (exists []; split; [symmetry; apply app_nil_r | intros p [[]|[]]]);
    try rewrite <- app_assoc;
    (eexists; split; [reflexivity|]); intros p Hin; old_trace; eauto.
Qed.

(** X12. The manager never saves or releases a profile that it has released:
    in a reachable state, a step that asks the store to save or to release a
    profile does so for a profile that was not released before; so no
    profile is released twice. *)
Theorem released_profiles_are_left_alone (l : Label) (w w' : World) (evs : list Event)
    (profile : ProfileRef) :
  reachable w ->
  step l w = Some w' ->
  trace w' = trace w ++ evs ->
  (In (Save profile) evs ∨ In (Release profile) evs ->
   ¬ In (Release profile) (trace w))
  ∧ count (is_release_of profile) (trace w') <= 1.
Proof.
  intros Hreach Hstep Htr.
  pose proof (Owned_reachable _ Hreach) as HO.
  apply step_Step in Hstep.
  split.
  - intros Hin. destruct (Step_events _ _ _ Hstep) as (evs' & Htr' & Hloaded).
    rewrite Htr' in Htr. apply app_inv_head in Htr as ->.
    destruct (Hloaded _ Hin) as [k Hk].
    eapply (own_not_released _ HO); eassumption.
  - apply (own_release_once w'). eapply Owned_Step; eassumption.
Qed.

(** "P1" is loaded, then unloaded: the step that releases the profile
    finds it not yet released. *)
Lemma released_profiles_are_left_alone_witness :
  reachable P1_loaded
  ∧ ∃ w', step (Invoke 2 (Unload "P1")) P1_loaded = Some w'
        ∧ trace w' = trace P1_loaded ++ [Release 0; Print (Unloaded "P1")]
        ∧ ¬ In (Release 0) (trace P1_loaded)
        ∧ count (is_release_of 0) (trace w') <= 1.
Proof.
  assert (Hreach : reachable P1_loaded).
  { exists "PlayerData", P1_template,
      [Invoke 0 (Load "P1" None); StoreReply 1 0 (Some P1_stored)].
    vm_compute. reflexivity. }
  split; [exact Hreach|].
  destruct (step (Invoke 2 (Unload "P1")) P1_loaded) as [w'|] eqn:Hstep;
    [|vm_compute in Hstep; discriminate Hstep].
  exists w'. split; [reflexivity|].
  assert (Htr : trace w' = trace P1_loaded ++ [Release 0; Print (Unloaded "P1")]).
  { vm_compute in Hstep. injection Hstep as <-. reflexivity. }
  split; [exact Htr|].
  destruct (released_profiles_are_left_alone _ _ _ _ 0 Hreach Hstep Htr) as [Hnot Honce].
  split; [|exact Honce].
  apply Hnot. right. left. reflexivity.
Defined.

(** X13. A viewed profile is read-only for the manager: in a reachable
    state, a profile that [viewedProfiles] holds has never been saved or
    released, and it is not the loaded profile of any key. *)
Theorem viewed_profiles_are_never_saved_or_released (w : World) (profileKey : Key)
    (viewCached : ProfileRef) :
  reachable w ->
  viewedProfiles w !! profileKey = Some viewCached ->
  ¬ In (Save viewCached) (trace w)
  ∧ ¬ In (Release viewCached) (trace w)
  ∧ forall k, loadedProfiles w !! k ≠ Some viewCached.
Proof.
  intros Hreach Hv. pose proof (Owned_reachable _ Hreach) as HO.
  destruct (own_viewed_untouched _ HO _ _ Hv) as [Hr Hs].
  split; [exact Hs|]. split; [exact Hr|].
  intros k Hl. eapply (own_apart _ HO); eassumption.
Qed.

(** "P1" is viewed, then loaded, saved and unloaded: the save and the
    release were of the loaded object 1, not of the viewed object 0. *)
Lemma viewed_profiles_are_never_saved_or_released_witness :
  let w := default P1_viewed (exec P1_viewed_then_released P1_viewed) in
  reachable w
  ∧ viewedProfiles w !! "P1" = Some 0
  ∧ In (Save 1) (trace w) ∧ In (Release 1) (trace w)
  ∧ ¬ In (Save 0) (trace w) ∧ ¬ In (Release 0) (trace w).
Proof.
  intros w.
  assert (Hreach : reachable w).
  { exists "PlayerData", P1_template,
      ([Invoke 0 (View "P1"); StoreReply 1 0 (Some P1_stored)] ++ P1_viewed_then_released).
    vm_compute. reflexivity. }
  assert (Hv : viewedProfiles w !! "P1" = Some 0) by (vm_compute; reflexivity).
  split; [exact Hreach|]. split; [exact Hv|].
  split; [vm_compute; tauto|]. split; [vm_compute; tauto|].
  destruct (viewed_profiles_are_never_saved_or_released w "P1" 0 Hreach Hv) as (Hs & Hr & _).
  split; assumption.
Defined.

(** X14. Only [view] registers awaiting operations: in a reachable state
    every entry of [awaitingOperations] has type "view"; [load] never
    registers one. *)
Theorem awaiting_operations_are_views (w : World) (profileKey : Key) (ty : OpType)
    (signal : SignalId) :
  reachable w ->
  awaitingOperations w !! profileKey = Some (ty, signal) ->
  ty = OpView.
Proof.
  intros Hreach Ha. exact (own_view_only _ (Owned_reachable _ Hreach) _ _ _ Ha).
Qed.

Lemma awaiting_operations_are_views_witness :
  reachable P3_two_views
  ∧ awaitingOperations P3_two_views !! "P3" = Some (OpView, 0).
Proof.
  assert (Hreach : reachable P3_two_views).
  { exists "PlayerData", ∅, [Invoke 0 (View "P3"); Invoke 1 (View "P3")].
    vm_compute. reflexivity. }
  split; [exact Hreach|].
  assert (Ha : ∃ ty, awaitingOperations P3_two_views !! "P3" = Some (ty, 0))
    by (exists OpView; reflexivity).
  destruct Ha as [ty Ha].
  pose proof (awaiting_operations_are_views P3_two_views "P3" ty 0 Hreach Ha) as ->.
  exact Ha.
Defined.

(** ** What each method leaves alone *)

(** X15. Every method keeps to its own maps: [load] changes neither
    [viewedProfiles] nor [awaitingOperations]; [view] does not change
    [loadedProfiles]; [unload] changes only [loadedProfiles]; [save] changes
    no map. *)
Theorem methods_keep_to_their_maps (l : Label) (w w' : World) :
  step l w = Some w' ->
  match step_method l w with
  | Some MLoad =>
      viewedProfiles w' = viewedProfiles w
      ∧ awaitingOperations w' = awaitingOperations w
  | Some MView => loadedProfiles w' = loadedProfiles w
  | Some MUnload =>
      viewedProfiles w' = viewedProfiles w
      ∧ awaitingOperations w' = awaitingOperations w
  | Some MSave =>
      loadedProfiles w' = loadedProfiles w
      ∧ viewedProfiles w' = viewedProfiles w
      ∧ awaitingOperations w' = awaitingOperations w
  | None => True
  end.
Proof.
  intros Hstep. apply step_Step in Hstep.
  destruct Hstep; cbn [step_method];
    repeat match goal with
           | H : tasks _ !! _ = Some _ |- _ => rewrite H; revert H
           end; intros; simpl_world; auto.
Qed.

Lemma methods_keep_to_their_maps_witness :
  ∃ w', step (Invoke 2 (Load "P1" None)) P1_viewed = Some w'
      ∧ viewedProfiles w' = viewedProfiles P1_viewed
      ∧ awaitingOperations w' = awaitingOperations P1_viewed.
Proof.
  destruct (step (Invoke 2 (Load "P1" None)) P1_viewed) as [w'|] eqn:Hstep;
    [|vm_compute in Hstep; discriminate Hstep].
  exists w'. split; [reflexivity|].
  exact (methods_keep_to_their_maps _ _ _ Hstep).
Defined.

(** X16. Keys do not interfere: a step of a call for one key changes the
    entry of no other key, in any of the three maps. *)
Theorem other_keys_are_untouched (l : Label) (w w' : World) (profileKey k : Key) :
  step l w = Some w' ->
  step_key l w = Some profileKey ->
  k ≠ profileKey ->
  loadedProfiles w' !! k = loadedProfiles w !! k
  ∧ viewedProfiles w' !! k = viewedProfiles w !! k
  ∧ awaitingOperations w' !! k = awaitingOperations w !! k.
Proof.
  intros Hstep Hkey Hne. apply step_Step in Hstep.
  destruct Hstep; cbn [step_key] in Hkey;
    repeat match goal with
           | H : tasks _ !! _ = Some _ |- _ => rewrite H in Hkey; revert H
           end; intros; cbn in Hkey; injection Hkey as ->; simpl_world;
    rewrite ?lookup_insert_ne, ?lookup_delete_ne by congruence; auto.
Qed.

(** "P1" is loaded and "P2" viewed; unloading "P1" leaves "P2" as it is. *)
Lemma other_keys_are_untouched_witness :
  ∃ w', step (Invoke 2 (Unload "P1")) P1_loaded = Some w'
      ∧ step_key (Invoke 2 (Unload "P1")) P1_loaded = Some "P1"
      ∧ loadedProfiles w' !! "P2" = loadedProfiles P1_loaded !! "P2"
      ∧ viewedProfiles w' !! "P2" = viewedProfiles P1_loaded !! "P2"
      ∧ awaitingOperations w' !! "P2" = awaitingOperations P1_loaded !! "P2".
Proof.
  destruct (step (Invoke 2 (Unload "P1")) P1_loaded) as [w'|] eqn:Hstep;
    [|vm_compute in Hstep; discriminate Hstep].
  exists w'. split; [reflexivity|]. split; [reflexivity|].
  apply (other_keys_are_untouched _ _ _ "P1" "P2" Hstep); [reflexivity | discriminate].
Defined.

Lemma Step_keeps_data (l : Label) (w w' : World) (profile : ProfileRef) (data : Payload) :
  Step l w w' ->
  profiles w !! profile = Some data ->
  profiles w' !! profile = Some data.
Proof.
  intros Hstep Hp. pose proof (lookup_lt_Some _ _ _ Hp) as Hlt.
  destruct Hstep; simpl_world; try assumption.
  - rewrite list_lookup_alter_ne by lia. apply lookup_app_l_Some, Hp.
  - apply lookup_app_l_Some, Hp.
Qed.

(** X17. The manager changes the data of a profile only in the step in which
    [load] receives it (by [Reconcile]): whatever a profile holds in some
    state, it holds in every later state, whatever is called. *)
Theorem profile_data_is_never_changed_later (ls : list Label) :
  forall (w w' : World) (profile : ProfileRef) (data : Payload),
    exec ls w = Some w' ->
    profiles w !! profile = Some data ->
    profiles w' !! profile = Some data.
Proof.
  induction ls as [|l ls IH]; intros w w' profile data Hex Hp; cbn in Hex.
  - injection Hex as <-. exact Hp.
  - destruct (step l w) as [w1|] eqn:Hstep; [|discriminate].
    eapply IH; [exact Hex|]. eapply Step_keeps_data; [apply step_Step, Hstep | exact Hp].
Qed.

(** The view of "P1" keeps its payload [{coins: 50}] when "P1" is loaded,
    reconciled, saved and unloaded afterwards. *)
Lemma profile_data_is_never_changed_later_witness :
  profiles P1_viewed !! 0 = Some P1_stored
  ∧ ∃ w', exec P1_viewed_then_released P1_viewed = Some w'
        ∧ profiles w' !! 0 = Some P1_stored.
Proof.
  split; [reflexivity|].
  destruct (exec P1_viewed_then_released P1_viewed) as [w'|] eqn:Hex;
    [|vm_compute in Hex; discriminate Hex].
  exists w'. split; [reflexivity|].
  exact (profile_data_is_never_changed_later _ _ _ 0 P1_stored Hex eq_refl).
Defined.

(** ** [StringUtils.combineHumanReadable] *)

Lemma append_assoc (a b c : string) : (a +:+ b) +:+ c = a +:+ (b +:+ c).
Proof.
  induction a as [|x a IH]; [reflexivity|].
  change (String x ((a +:+ b) +:+ c) = String x (a +:+ (b +:+ c))).
  by rewrite IH.
Qed.

Lemma append_nil_r (a : string) : a +:+ EmptyString = a.
Proof.
  induction a as [|x a IH]; [reflexivity|].
  change (String x (a +:+ EmptyString) = String x a). by rewrite IH.
Qed.

Lemma combine_loop (rest : list string) (st : StringUtils.Loop) :
  (StringUtils.size st - StringUtils.i st = Z.of_nat (length rest) - 1)%Z ->
  StringUtils.label (fold_left StringUtils.body rest st)
  = StringUtils.label st +:+ StringUtils.written rest.
Proof.
  revert st. induction rest as [|c rest IH]; intros st Hk.
  - cbn. by rewrite append_nil_r.
  - cbn [fold_left StringUtils.written]. rewrite IH.
    + unfold StringUtils.body. destruct (String.eqb c EmptyString) eqn:Hc.
      * reflexivity.
      * cbn [StringUtils.label StringUtils.i StringUtils.size].
        destruct rest as [|c' rest].
        -- cbn [length] in Hk.
           destruct (Z.ltb_spec (StringUtils.i st) (StringUtils.size st));
             [lia|].
           rewrite bool_decide_eq_true_2 by done.
           by rewrite append_assoc.
        -- cbn [length] in Hk.
           destruct (Z.ltb_spec (StringUtils.i st) (StringUtils.size st));
             [|lia].
           rewrite bool_decide_eq_false_2 by done.
           by rewrite !append_assoc.
    + unfold StringUtils.body. cbn [length] in Hk.
      destruct (String.eqb c EmptyString); cbn; lia.
Qed.

Lemma combine_written (strings : list string) :
  StringUtils.combineHumanReadable strings = StringUtils.written strings.
Proof.
  unfold StringUtils.combineHumanReadable. rewrite combine_loop; [done|].
  cbn. lia.
Qed.

Lemma written_all_empty (strings : list string) :
  List.filter StringUtils.non_empty strings = [] ->
  StringUtils.written strings = EmptyString.
Proof.
  induction strings as [|c rest IH]; [done|]. cbn.
  unfold StringUtils.non_empty at 1.
  destruct (String.eqb c EmptyString); cbn; [auto|done].
Qed.

Lemma all_empty_last (c : string) (strings : list string) :
  List.filter StringUtils.non_empty strings = [] ->
  last strings = Some c -> String.eqb c EmptyString = true.
Proof.
  induction strings as [|c' rest IH]; [done|]. cbn [List.filter].
  unfold StringUtils.non_empty at 1.
  destruct (String.eqb c' EmptyString) eqn:Hc'; cbn; [|done].
  intros Hf. rewrite last_cons. destruct (last rest) as [y|] eqn:Hl.
  - intros [= ->]. by apply IH.
  - by intros [= <-].
Qed.

Lemma written_closed_form (strings : list string) :
  StringUtils.written strings
  = String.concat ", " (List.filter StringUtils.non_empty strings)
    +:+ (if StringUtils.dangling strings then ", " else EmptyString).
Proof.
  induction strings as [|c rest IH]; [done|].
  cbn [StringUtils.written].
  destruct (String.eqb c EmptyString) eqn:Hc.
  - assert (Hf : List.filter StringUtils.non_empty (c :: rest)
                 = List.filter StringUtils.non_empty rest).
    { cbn. unfold StringUtils.non_empty at 1. by rewrite Hc. }
    assert (Hd : StringUtils.dangling (c :: rest)
                 = StringUtils.dangling rest).
    { unfold StringUtils.dangling. rewrite Hf, last_cons.
      destruct (last rest) as [y|] eqn:Hl; [done|].
      apply last_None in Hl as ->. reflexivity. }
    rewrite Hf, Hd, IH. reflexivity.
  - assert (Hf : List.filter StringUtils.non_empty (c :: rest)
                 = c :: List.filter StringUtils.non_empty rest).
    { cbn. unfold StringUtils.non_empty at 1. by rewrite Hc. }
    unfold StringUtils.dangling at 1. rewrite Hf.
    destruct rest as [|c' rest].
    + cbn. by rewrite Hc, !append_nil_r.
    + rewrite bool_decide_eq_false_2 by done.
      rewrite last_cons_cons.
      destruct (last (c' :: rest)) as [y|] eqn:Hl;
        [|by apply last_None in Hl].
      destruct (List.filter StringUtils.non_empty (c' :: rest))
        as [|f fs] eqn:Hfs.
      * rewrite (written_all_empty _ Hfs).
        rewrite (all_empty_last y _ Hfs Hl). cbn [String.concat].
        by rewrite append_nil_r.
      * rewrite IH. unfold StringUtils.dangling. rewrite Hl, Hfs.
        change (String.concat ", " (c :: f :: fs))
          with (c +:+ ", " +:+ String.concat ", " (f :: fs)).
        by rewrite !append_assoc.
Qed.

(** X18 ([combineHumanReadable], closed form).  The result is the arguments
    that are not empty, in order, joined by [", "] and nothing else (the
    word "and" is never written), followed by one more [", "] exactly when
    the last argument is empty and some argument is not. *)
Theorem combineHumanReadable_closed_form (strings : list string) :
  StringUtils.combineHumanReadable strings
  = String.concat ", " (List.filter StringUtils.non_empty strings)
    +:+ (if StringUtils.dangling strings then ", " else EmptyString).
Proof. rewrite combine_written. apply written_closed_form. Qed.

(** X19 ([combineHumanReadable], empty arguments).  An empty argument that
    is not the last one is ignored: removing it does not change the
    result. *)
Theorem combineHumanReadable_skips_inner_empty (before after : list string) :
  after <> [] ->
  StringUtils.combineHumanReadable (before ++ EmptyString :: after)
  = StringUtils.combineHumanReadable (before ++ after).
Proof.
  intros Hafter. rewrite !combine_written.
  induction before as [|c before IH].
  - reflexivity.
  - cbn [app StringUtils.written]. rewrite IH. f_equal.
    destruct (String.eqb c EmptyString); [done|].
    rewrite !bool_decide_eq_false_2; [done| |].
    + intros [_ ?]%app_eq_nil. done.
    + intros [_ ?]%app_eq_nil. done.
Qed.

Lemma combineHumanReadable_skips_inner_empty_witness :
  StringUtils.combineHumanReadable ["a"; EmptyString; "b"]
  = StringUtils.combineHumanReadable ["a"; "b"].
Proof.
  apply (combineHumanReadable_skips_inner_empty ["a"] ["b"]). discriminate.
Defined.

(** X20 ([combineHumanReadable], empty last argument).  When no argument
    but the last is empty, the separator written after the one before it
    stays: the list ends in a dangling [", "]. *)
Theorem combineHumanReadable_trailing_empty (strings : list string) :
  strings <> [] ->
  Forall (fun c => c <> EmptyString) strings ->
  StringUtils.combineHumanReadable (strings ++ [EmptyString])
  = String.concat ", " strings +:+ ", ".
Proof.
  intros Hne Hall. rewrite combine_written, written_closed_form.
  assert (Hf : List.filter StringUtils.non_empty (strings ++ [EmptyString])
               = strings).
  { rewrite List.filter_app. cbn. rewrite app_nil_r.
    clear Hne. induction Hall as [|c rest Hc _ IH]; [done|].
    cbn. unfold StringUtils.non_empty at 1.
    destruct (String.eqb_spec c EmptyString); [done|]. cbn. by rewrite IH. }
  unfold StringUtils.dangling. rewrite Hf, last_snoc.
  destruct strings; done.
Qed.

Lemma combineHumanReadable_trailing_empty_witness :
  StringUtils.combineHumanReadable ["a"; "b"; EmptyString] = "a, b, ".
Proof.
  apply (combineHumanReadable_trailing_empty ["a"; "b"]).
  - discriminate.
  - repeat constructor; discriminate.
Defined.

(** ** Information attached to instances *)

Lemma assign_lookup (key key' : string) (value : option Value)
    (info : InstanceInfo.Info) :
  InstanceInfo.assign key value info !! key'
  = if bool_decide (key' = key) then value else info !! key'.
Proof.
  unfold InstanceInfo.assign. case_bool_decide as Hk.
  - subst. destruct value; [apply lookup_insert_eq | apply lookup_delete_eq].
  - destruct value;
      [by apply lookup_insert_ne | by apply lookup_delete_ne].
Qed.

(** X21 ([setInstanceInfo] then [getInstanceInfo]).  In any state, after
    [setInstanceInfo(instance, key, value)] a [getInstanceInfo] returns
    [value] for that instance and key and what it returned before for every
    other instance or key; the table returned by [setInstanceInfo] is the
    one that [getInstanceInfo] reads. *)
Theorem set_then_get (instance instance' : InstanceInfo.Instance)
    (key key' : string) (value : option Value) (r : InstanceInfo.Registry) :
  let (info, r') := InstanceInfo.setInstanceInfo instance key value r in
  InstanceInfo.getInstanceInfo instance' key' r'
  = (if bool_decide (instance' = instance /\ key' = key) then value
     else InstanceInfo.getInstanceInfo instance' key' r)
  /\ InstanceInfo.getInstanceInfo instance key' r' = info !! key'.
Proof.
  unfold InstanceInfo.setInstanceInfo, InstanceInfo.getInstanceInfo.
  destruct (InstanceInfo.INFO_PER_INSTANCE r !! instance) as [info|] eqn:Hi;
    cbn [InstanceInfo.INFO_PER_INSTANCE]; rewrite lookup_insert_eq;
    (split; [|done]);
    (destruct (decide (instance' = instance)) as [->|Hne];
     [ rewrite lookup_insert_eq, assign_lookup, Hi, ?lookup_empty;
       destruct (decide (key' = key)) as [->|Hk];
       [ by rewrite !bool_decide_eq_true_2
       | rewrite !bool_decide_eq_false_2; [done|by intros [_ ?]|done] ]
     | rewrite lookup_insert_ne by done;
       rewrite bool_decide_eq_false_2; [done|by intros [? _]] ]).
Qed.

(** X22 ([getAllInstanceInfo]).  [getAllInstanceInfo] returns the table
    whose fields [getInstanceInfo] reads, and although it may store a new
    empty table it changes the answer of no [getInstanceInfo]. *)
Theorem getAll_reads_the_same_table (instance instance' : InstanceInfo.Instance)
    (key : string) (r : InstanceInfo.Registry) :
  let (info, r') := InstanceInfo.getAllInstanceInfo instance r in
  info !! key = InstanceInfo.getInstanceInfo instance key r
  /\ InstanceInfo.getInstanceInfo instance' key r'
     = InstanceInfo.getInstanceInfo instance' key r.
Proof.
  unfold InstanceInfo.getAllInstanceInfo, InstanceInfo.getInstanceInfo.
  destruct (InstanceInfo.INFO_PER_INSTANCE r !! instance) as [info|] eqn:Hi.
  - done.
  - split; [done|]. cbn [InstanceInfo.INFO_PER_INSTANCE].
    destruct (decide (instance' = instance)) as [->|Hne].
    + by rewrite lookup_insert_eq, Hi.
    + by rewrite lookup_insert_ne.
Qed.

Lemma connected_app (instance : InstanceInfo.Instance)
    (conns : list InstanceInfo.Instance) (x : InstanceInfo.Instance) :
  length (List.filter (Nat.eqb instance) (conns ++ [x]))
  = (length (List.filter (Nat.eqb instance) conns)
     + if bool_decide (instance = x) then 1 else 0)%nat.
Proof.
  rewrite List.filter_app, length_app. cbn.
  destruct (Nat.eqb_spec instance x); case_bool_decide; done.
Qed.

Lemma connected_after_Destroying (instance x : InstanceInfo.Instance)
    (conns : list InstanceInfo.Instance) :
  length (List.filter (Nat.eqb instance)
            (List.filter (fun y => negb (Nat.eqb y x)) conns))
  = if bool_decide (instance = x) then 0%nat
    else length (List.filter (Nat.eqb instance) conns).
Proof.
  induction conns as [|c conns IH]; [by case_bool_decide|].
  cbn. destruct (Nat.eqb_spec c x) as [->|Hcx]; cbn.
  - rewrite IH. case_bool_decide as Hix; [done|].
    destruct (Nat.eqb_spec instance x); [done|]. done.
  - destruct (Nat.eqb_spec instance c) as [->|Hic]; cbn; rewrite IH.
    + by rewrite bool_decide_eq_false_2.
    + done.
Qed.

Lemma connected_positive (instance : InstanceInfo.Instance)
    (conns : list InstanceInfo.Instance) :
  (0 < length (List.filter (Nat.eqb instance) conns))%nat <->
  instance ∈ conns.
Proof.
  induction conns as [|c conns IH]; cbn.
  - split; [lia|]. by intros ?%elem_of_nil.
  - rewrite elem_of_cons. destruct (Nat.eqb_spec instance c); cbn.
    + split; [auto|lia].
    + rewrite IH. split; [auto|]. by intros [?|?].
Qed.

Lemma one_connection_step (r : InstanceInfo.Registry) (op : InstanceInfo.Op) :
  (forall instance,
     InstanceInfo.connected instance r
     = match InstanceInfo.INFO_PER_INSTANCE r !! instance with
       | Some _ => 1%nat
       | None => 0%nat
       end) ->
  forall instance,
    InstanceInfo.connected instance (InstanceInfo.run r op)
    = match
        InstanceInfo.INFO_PER_INSTANCE (InstanceInfo.run r op) !! instance
      with
      | Some _ => 1%nat
      | None => 0%nat
      end.
Proof.
  intros Hr instance. unfold InstanceInfo.connected in *.
  destruct op as [x key value|x|x key|x]; cbn [InstanceInfo.run].
  - unfold InstanceInfo.setInstanceInfo.
    destruct (InstanceInfo.INFO_PER_INSTANCE r !! x) as [info|] eqn:Hx;
      cbn [snd InstanceInfo.INFO_PER_INSTANCE InstanceInfo.connections].
    + destruct (decide (instance = x)) as [->|Hne].
      * by rewrite lookup_insert_eq, Hr, Hx.
      * by rewrite lookup_insert_ne, Hr.
    + rewrite connected_app, Hr.
      destruct (decide (instance = x)) as [->|Hne].
      * by rewrite lookup_insert_eq, Hx, bool_decide_eq_true_2.
      * rewrite lookup_insert_ne, bool_decide_eq_false_2 by done. lia.
  - unfold InstanceInfo.getAllInstanceInfo.
    destruct (InstanceInfo.INFO_PER_INSTANCE r !! x) as [info|] eqn:Hx;
      cbn [snd InstanceInfo.INFO_PER_INSTANCE InstanceInfo.connections].
    + apply Hr.
    + rewrite connected_app, Hr.
      destruct (decide (instance = x)) as [->|Hne].
      * by rewrite lookup_insert_eq, Hx, bool_decide_eq_true_2.
      * rewrite lookup_insert_ne, bool_decide_eq_false_2 by done. lia.
  - apply Hr.
  - unfold InstanceInfo.Destroying.
    cbn [InstanceInfo.INFO_PER_INSTANCE InstanceInfo.connections].
    rewrite connected_after_Destroying.
    pose proof (Hr x) as Hx. pose proof (connected_positive x
      (InstanceInfo.connections r)) as Hpos.
    case_bool_decide as Hix.
    + subst. case_bool_decide as Hin.
      * by rewrite lookup_delete_eq.
      * destruct (InstanceInfo.INFO_PER_INSTANCE r !! x); [|done].
        exfalso. apply Hin, Hpos. lia.
    + case_bool_decide as Hin.
      * by rewrite lookup_delete_ne, Hr.
      * apply Hr.
Qed.

Lemma one_connection (r : InstanceInfo.Registry) :
  InstanceInfo.reachable r ->
  forall instance,
    InstanceInfo.connected instance r
    = match InstanceInfo.INFO_PER_INSTANCE r !! instance with
    | Some _ => 1%nat
    | None => 0%nat
    end.
Proof.
  intros [ops ->]. induction ops as [|op ops IH] using rev_ind.
  - intros instance. cbn. by rewrite lookup_empty.
  - rewrite fold_left_app. cbn [fold_left]. by apply one_connection_step.
Qed.

(** X23 (one callback per entry).  However often [setInstanceInfo] and
    [getAllInstanceInfo] are called and instances destroyed, an instance
    with an entry in [INFO_PER_INSTANCE] has exactly one callback connected
    to its [Destroying] signal, and an instance without an entry has
    none. *)
Theorem one_Destroying_callback_per_entry (r : InstanceInfo.Registry)
    (instance : InstanceInfo.Instance) :
  InstanceInfo.reachable r ->
  InstanceInfo.connected instance r
  = match InstanceInfo.INFO_PER_INSTANCE r !! instance with
    | Some _ => 1%nat
    | None => 0%nat
    end.
Proof. intros Hr. by apply one_connection. Qed.

Lemma one_Destroying_callback_per_entry_witness :
  let r := fold_left InstanceInfo.run
             [InstanceInfo.Set_ 7 "owner" (Some (VStr "a"));
              InstanceInfo.GetAll 7;
              InstanceInfo.Set_ 7 "level" (Some (VNum 3))]
             InstanceInfo.initial in
  InstanceInfo.connected 7 r = 1%nat.
Proof.
  apply (one_Destroying_callback_per_entry
           (fold_left InstanceInfo.run
              [InstanceInfo.Set_ 7 "owner" (Some (VStr "a"));
               InstanceInfo.GetAll 7;
               InstanceInfo.Set_ 7 "level" (Some (VNum 3))]
              InstanceInfo.initial) 7).
  eexists. reflexivity.
Defined.

(** X24 (destruction clears the information).  In a state reached by
    calls of the three functions and destructions, when [Destroying] fires
    for an instance its entry is deleted, so that [getInstanceInfo] returns
    [undefined] for each of its keys, and the entries of all other
    instances stay as they are. *)
Theorem Destroying_clears_the_instance (r : InstanceInfo.Registry)
    (instance instance' : InstanceInfo.Instance) (key : string) :
  InstanceInfo.reachable r ->
  InstanceInfo.INFO_PER_INSTANCE (InstanceInfo.Destroying instance r)
    !! instance = None
  /\ InstanceInfo.getInstanceInfo instance key
       (InstanceInfo.Destroying instance r) = None
  /\ (instance' <> instance ->
      InstanceInfo.INFO_PER_INSTANCE (InstanceInfo.Destroying instance r)
        !! instance'
      = InstanceInfo.INFO_PER_INSTANCE r !! instance').
Proof.
  intros Hr. pose proof (one_connection r Hr instance) as Hone.
  pose proof (connected_positive instance (InstanceInfo.connections r))
    as Hpos.
  unfold InstanceInfo.connected in Hone.
  unfold InstanceInfo.getInstanceInfo, InstanceInfo.Destroying.
  cbn [InstanceInfo.INFO_PER_INSTANCE].
  assert (Hgone : (if bool_decide (instance ∈ InstanceInfo.connections r)
                   then delete instance (InstanceInfo.INFO_PER_INSTANCE r)
                   else InstanceInfo.INFO_PER_INSTANCE r) !! instance = None).
  { case_bool_decide as Hin; [apply lookup_delete_eq|].
    destruct (InstanceInfo.INFO_PER_INSTANCE r !! instance); [|done].
    exfalso. apply Hin, Hpos. lia. }
  rewrite Hgone. split; [done|]. split; [done|].
  intros Hne. case_bool_decide; [by rewrite lookup_delete_ne|done].
Qed.

Lemma Destroying_clears_the_instance_witness :
  InstanceInfo.getInstanceInfo 7 "owner"
    (InstanceInfo.Destroying 7
       (fold_left InstanceInfo.run
          [InstanceInfo.Set_ 7 "owner" (Some (VStr "a"))]
          InstanceInfo.initial)) = None.
Proof.
  apply (Destroying_clears_the_instance
           (fold_left InstanceInfo.run
              [InstanceInfo.Set_ 7 "owner" (Some (VStr "a"))]
              InstanceInfo.initial) 7 7 "owner").
  eexists. reflexivity.
Defined.

(** ** Seconds as clock text *)



(** ** [InstanceUtils.findModels] *)

Lemma Instance_induction (P : InstanceUtils.Instance -> Prop) :
  (forall name className children,
     Forall P children -> P (InstanceUtils.Inst name className children)) ->
  forall instance, P instance.
Proof.
  intros HP. fix IH 1. intros [name className children]. apply HP.
  induction children as [|child children IHc]; constructor; [apply IH|done].
Qed.

Lemma findModels_fold (inherits : string -> string -> bool)
    (children : list InstanceUtils.Instance)
    (models : list InstanceUtils.Instance) (model : InstanceUtils.Instance) :
  model ∈ fold_left
      (fun models child =>
         if InstanceUtils.IsA inherits child "Folder"
         then models ++ InstanceUtils.findModels inherits child
         else if InstanceUtils.IsA inherits child "Model"
              then models ++ [child]
              else models)
      children models
  <-> model ∈ models
      \/ exists child, child ∈ children
         /\ (if InstanceUtils.IsA inherits child "Folder"
             then model ∈ InstanceUtils.findModels inherits child
             else InstanceUtils.IsA inherits child "Model" = true
                  /\ model = child).
Proof.
  revert models. induction children as [|c children IH]; intros models.
  - cbn. split; [auto|]. intros [?|(child & Hin & _)]; [done|].
    by apply elem_of_nil in Hin.
  - cbn [fold_left]. rewrite IH. split.
    + intros [Hm|(child & Hin & Hc)].
      * destruct (InstanceUtils.IsA inherits c "Folder") eqn:Hf.
        -- apply elem_of_app in Hm as [Hm|Hm]; [auto|]. right. exists c.
           rewrite Hf. split; [left|done].
        -- destruct (InstanceUtils.IsA inherits c "Model") eqn:Hmod;
             [|auto].
           apply elem_of_app in Hm as [Hm|Hm]; [auto|]. right. exists c.
           apply list_elem_of_singleton in Hm as ->. rewrite Hf.
           split; [left|done].
      * right. exists child. split; [by right|done].
    + intros [Hm|(child & Hin & Hc)].
      * left. destruct (InstanceUtils.IsA inherits c "Folder");
          [apply elem_of_app; auto|].
        destruct (InstanceUtils.IsA inherits c "Model");
          [apply elem_of_app; auto|done].
      * apply elem_of_cons in Hin as [->|Hin].
        -- left. destruct (InstanceUtils.IsA inherits c "Folder").
           ++ apply elem_of_app. auto.
           ++ destruct Hc as [-> ->]. apply elem_of_app. right.
              by apply list_elem_of_singleton.
        -- right. exists child. done.
Qed.

(** X27 ([findModels]).  [findModels] returns exactly the children that are
    models and not folders, of the instance and of the folders reached from
    it through folders only: it does not look inside a model or any other
    instance that is not a folder, and it never returns a folder. *)
Theorem findModels_looks_through_folders_only
    (inherits : string -> string -> bool)
    (instance model : InstanceUtils.Instance) :
  model ∈ InstanceUtils.findModels inherits instance
  <-> InstanceUtils.found_under inherits instance model.
Proof.
  revert model. induction instance as [name className children IH]
    using Instance_induction. intros model.
  cbn [InstanceUtils.findModels]. rewrite findModels_fold. split.
  - intros [Hm|(child & Hin & Hc)]; [by apply elem_of_nil in Hm|].
    destruct (InstanceUtils.IsA inherits child "Folder") eqn:Hf.
    + eapply InstanceUtils.found_in_folder; [exact Hin|exact Hf|].
      rewrite Forall_forall in IH. by apply IH.
    + destruct Hc as [Hmod ->]. by apply InstanceUtils.found_child.
  - intros Hfound. right. inversion Hfound as [? ? Hin Hf Hmod|? folder ? Hin Hf Hsub]; subst.
    + exists model. cbn in Hin. rewrite Hf. done.
    + exists folder. cbn in Hin. rewrite Hf. split; [done|].
      rewrite Forall_forall in IH. by apply IH.
Qed.
